(** * Auto-Gains: streaming repetition counter and its WebSocket broker

    A shallow embedding of [src/auto_gains/backend/imu_dynamic.py]
    (StreamingPCA, StreamingSmoother, StreamingRepCounter,
    StreamingPipeline, the loop of simulate_streaming), of the session logic of
    [src/auto_gains/backend/ws_server.py] (RepServer), and of the
    classifier's entry point in
    [src/auto_gains/backend/train_classifier.py]
    (windows_from_sequence, classify_exercise).

    Numbers.  Python [int] is [Z].  Python [float] is idealised as the
    exact rationals [Q]: rounding, infinities and nan are not modelled.
    [np.mean] of an empty list is nan in numpy and [0/0 = 0] here; the
    window handed to it is empty only when [baseline_window < 1].

    Objects.  Every Python object is a record holding its attributes; a
    method takes the record and returns the updated record next to its
    result.  An attribute that may hold [None] is an [option]. *)

From Stdlib Require Import ZArith QArith Qfield Qround Lqa List Bool String Lia OrdersEx.
Import ListNotations.

Set Warnings "-register-all".
Open Scope Q_scope.

(** ** Comparisons and numpy helpers *)

(** Python [x < y] on floats, as a boolean. *)
Definition Qltb (x y : Q) : bool :=
  match x ?= y with Lt => true | _ => false end.

(** [sum(xs)] *)
Fixpoint Qsum (xs : list Q) : Q :=
  match xs with
  | [] => 0
  | x :: r => x + Qsum r
  end.

(** [len(xs)] as a Python int. *)
Definition len {A} (xs : list A) : Z := Z.of_nat (List.length xs).

(** [np.mean(xs)] *)
Definition np_mean (xs : list Q) : Q := Qsum xs / inject_Z (len xs).

(** ** StreamingRepCounter: the peak/valley state machine *)

Module RepCounter.

Inductive phase := WAITING_FOR_PEAK | WAITING_FOR_VALLEY.

Record StreamingRepCounter := {
  amplitude_threshold : Q;
  min_samples_between_reps : Z;
  baseline_window : Z;
  state : phase;
  rep_count : Z;
  samples_since_last_rep : Z;
  current_peak : option Q;
  current_valley : option Q;
  peak_sample_idx : option Z;
  valley_sample_idx : option Z;
  recent_samples : list Q;
  baseline : Q;
  signal_history : list Q;
  baseline_history : list Q;
  state_history : list phase;
  rep_detection_samples : list (option Z);
  rep_amplitudes : list Q
}.

(** [StreamingRepCounter.__init__] *)
Definition init (threshold : Q) (min_samples window : Z) : StreamingRepCounter :=
  {| amplitude_threshold := threshold;
     min_samples_between_reps := min_samples;
     baseline_window := window;
     state := WAITING_FOR_PEAK;
     rep_count := 0%Z;
     samples_since_last_rep := 0%Z;
     current_peak := None;
     current_valley := None;
     peak_sample_idx := None;
     valley_sample_idx := None;
     recent_samples := [];
     baseline := 0;
     signal_history := [];
     baseline_history := [];
     state_history := [];
     rep_detection_samples := [];
     rep_amplitudes := [] |}.

(** [StreamingRepCounter.reset]: calls [__init__] again with the three
    configured parameters. *)
Definition reset (self : StreamingRepCounter) : StreamingRepCounter :=
  init (amplitude_threshold self) (min_samples_between_reps self)
       (baseline_window self).

(** The dict returned by [process_sample]. *)
Record result := {
  res_rep_count : Z;
  res_state : phase;
  res_baseline : Q;
  rep_detected : bool;
  amplitude : Q
}.

(** Lines 186-188: append to the window, then [pop(0)] once if it is
    longer than [baseline_window]. *)
Definition push_window (self : StreamingRepCounter) (signal_value : Q) : list Q :=
  let appended := recent_samples self ++ [signal_value] in
  if (len appended >? baseline_window self)%Z then tl appended else appended.

(** Line 192: the signal centred on the new baseline. *)
Definition centered (self : StreamingRepCounter) (signal_value : Q) : Q :=
  signal_value - np_mean (push_window self signal_value).

(** Lines 206-208: the valley tracker after it has seen [c]. *)
Definition tracked_valley (valley c : Q) : Q :=
  if Qltb c valley then c else valley.

(** The hysteresis margin, the literal [3] of lines 200 and 210. *)
Definition hysteresis : Q := 3.

(** Lines 213-214: the two conditions that gate a count. *)
Definition counts (self : StreamingRepCounter) (amp : Q) (since : Z) : bool :=
  Qltb (amplitude_threshold self) amp
  && (min_samples_between_reps self <? since)%Z.

(** [StreamingRepCounter.process_sample].  [None] is the [TypeError]
    Python raises when a tracker that holds [None] is compared or
    subtracted; the attribute writes before the raise are then lost. *)
Definition process_sample (self : StreamingRepCounter) (signal_value : Q)
    (sample_idx : Z) : option (StreamingRepCounter * result) :=
  let since := (samples_since_last_rep self + 1)%Z in
  let recent := push_window self signal_value in
  let base := np_mean recent in
  let signal_centered := signal_value - base in
  let finish (st : phase) (count since' : Z) (peak valley : option Q)
             (peak_idx valley_idx : option Z)
             (det_samples : list (option Z)) (amps : list Q)
             (detected : bool) (amp : Q) :=
    Some ({| amplitude_threshold := amplitude_threshold self;
             min_samples_between_reps := min_samples_between_reps self;
             baseline_window := baseline_window self;
             state := st;
             rep_count := count;
             samples_since_last_rep := since';
             current_peak := peak;
             current_valley := valley;
             peak_sample_idx := peak_idx;
             valley_sample_idx := valley_idx;
             recent_samples := recent;
             baseline := base;
             signal_history := signal_history self ++ [signal_value];
             baseline_history := baseline_history self ++ [base];
             state_history := state_history self ++ [st];
             rep_detection_samples := det_samples;
             rep_amplitudes := amps |},
          {| res_rep_count := count;
             res_state := st;
             res_baseline := base;
             rep_detected := detected;
             amplitude := match st with
                          | WAITING_FOR_VALLEY => amp
                          | WAITING_FOR_PEAK => 0
                          end |}) in
  match state self with
  | WAITING_FOR_PEAK =>
      let '(peak, peak_idx) :=
        match current_peak self with
        | None => (Some signal_centered, Some sample_idx)
        | Some p =>
            if Qltb p signal_centered
            then (Some signal_centered, Some sample_idx)
            else (Some p, peak_sample_idx self)
        end in
      let to_valley :=
        match peak with
        | Some p => Qltb signal_centered (p - hysteresis)
        | None => false
        end in
      if to_valley
      then finish WAITING_FOR_VALLEY (rep_count self) since
                  peak (Some signal_centered) peak_idx (Some sample_idx)
                  (rep_detection_samples self) (rep_amplitudes self) false 0
      else finish WAITING_FOR_PEAK (rep_count self) since
                  peak (current_valley self) peak_idx (valley_sample_idx self)
                  (rep_detection_samples self) (rep_amplitudes self) false 0
  | WAITING_FOR_VALLEY =>
      match current_valley self with
      | None => None
      | Some v0 =>
          let valley := tracked_valley v0 signal_centered in
          let valley_idx :=
            if Qltb signal_centered v0 then Some sample_idx
            else valley_sample_idx self in
          if Qltb (valley + hysteresis) signal_centered
          then
            match current_peak self with
            | None => None
            | Some p =>
                let amp := p - valley in
                if counts self amp since
                then finish WAITING_FOR_PEAK (rep_count self + 1)%Z 0%Z
                            (Some signal_centered) None (Some sample_idx) valley_idx
                            (rep_detection_samples self ++ [valley_idx])
                            (rep_amplitudes self ++ [amp]) true amp
                else finish WAITING_FOR_PEAK (rep_count self) since
                            (Some signal_centered) None (Some sample_idx) valley_idx
                            (rep_detection_samples self) (rep_amplitudes self)
                            false amp
            end
          else finish WAITING_FOR_VALLEY (rep_count self) since
                      (current_peak self) (Some valley) (peak_sample_idx self)
                      valley_idx
                      (rep_detection_samples self) (rep_amplitudes self) false 0
      end
  end.

(** Feeding a list of samples, indexed from [idx] on, as the callers do
    ([simulate_streaming], the consumer loop).  The results come back in
    call order. *)
Fixpoint process_all (self : StreamingRepCounter) (idx : Z) (signals : list Q)
  : option (StreamingRepCounter * list result) :=
  match signals with
  | [] => Some (self, [])
  | x :: rest =>
      match process_sample self x idx with
      | None => None
      | Some (self', r) =>
          match process_all self' (idx + 1)%Z rest with
          | None => None
          | Some (self'', rs) => Some (self'', r :: rs)
          end
      end
  end.

(** The states a counter goes through: the constructor's, and every
    state a returning call to [process_sample] leaves behind. *)
Inductive reachable (threshold : Q) (min_samples window : Z)
  : StreamingRepCounter -> Prop :=
| reach_init : reachable threshold min_samples window
                         (init threshold min_samples window)
| reach_step : forall self v i self' r,
    reachable threshold min_samples window self ->
    process_sample self v i = Some (self', r) ->
    reachable threshold min_samples window self'.

(** While a valley is awaited both trackers hold a number, so no
    comparison meets [None]. *)
Definition trackers_set (self : StreamingRepCounter) : Prop :=
  state self = WAITING_FOR_VALLEY ->
  current_peak self <> None /\ current_valley self <> None.

(** The counter a fresh one has become after a run of samples, indexed
    from 0. *)
Definition state_after (threshold : Q) (min_samples window : Z)
    (signals : list Q) : StreamingRepCounter :=
  match process_all (init threshold min_samples window) 0 signals with
  | Some (self, _) => self
  | None => init threshold min_samples window
  end.

(** The results that report a repetition. *)
Definition detections (rs : list result) : list result :=
  filter rep_detected rs.

End RepCounter.


(** ** numpy.linalg

    [np.linalg.norm] and [np.linalg.eigh] are numpy's, not this
    repository's: the square root behind the norm and the choice of the
    dominant eigenvector are taken as an interface.  Neither is rational
    in general, so no definition over [Q] could be exact. *)

Definition Vec3 : Type := Q * Q * Q.
Definition Mat3 : Type := Vec3 * Vec3 * Vec3.

Class Linalg := {
  (** [np.sqrt] *)
  np_sqrt : Q -> Q;
  (** [np.linalg.eigh(cov)[1][:, -1]]: the eigenvector of the largest
      eigenvalue *)
  eigh_pc1 : Mat3 -> Vec3
}.

(** An instance on which the model runs, for examples: the integer
    square root of the floor stands in for [np.sqrt], and the first axis
    for the dominant eigenvector of every matrix. *)
Definition floor_sqrt (q : Q) : Q := inject_Z (Z.sqrt (Qfloor q)).

Definition example_linalg : Linalg :=
  {| np_sqrt := floor_sqrt; eigh_pc1 := fun _ => (1, 0, 0) |}.

Module Vec.

Definition zeros : Vec3 := (0, 0, 0).
Definition zeros2 : Mat3 := (zeros, zeros, zeros).

Definition add (a b : Vec3) : Vec3 :=
  let '(a1, a2, a3) := a in let '(b1, b2, b3) := b in
  (a1 + b1, a2 + b2, a3 + b3).

Definition sub (a b : Vec3) : Vec3 :=
  let '(a1, a2, a3) := a in let '(b1, b2, b3) := b in
  (a1 - b1, a2 - b2, a3 - b3).

Definition neg (a : Vec3) : Vec3 :=
  let '(a1, a2, a3) := a in (- a1, - a2, - a3).

(** [a / k] *)
Definition div (a : Vec3) (k : Q) : Vec3 :=
  let '(a1, a2, a3) := a in (a1 / k, a2 / k, a3 / k).

(** [k * a] *)
Definition scale (k : Q) (a : Vec3) : Vec3 :=
  let '(a1, a2, a3) := a in (k * a1, k * a2, k * a3).

(** [np.dot(a, b)] *)
Definition dot (a b : Vec3) : Q :=
  let '(a1, a2, a3) := a in let '(b1, b2, b3) := b in
  a1 * b1 + a2 * b2 + a3 * b3.

(** [np.outer(a, b)] *)
Definition outer (a b : Vec3) : Mat3 :=
  let '(a1, a2, a3) := a in let '(b1, b2, b3) := b in
  ((a1 * b1, a1 * b2, a1 * b3),
   (a2 * b1, a2 * b2, a2 * b3),
   (a3 * b1, a3 * b2, a3 * b3)).

Definition madd (m p : Mat3) : Mat3 :=
  let '(m1, m2, m3) := m in let '(p1, p2, p3) := p in
  (add m1 p1, add m2 p2, add m3 p3).

Definition mdiv (m : Mat3) (k : Q) : Mat3 :=
  let '(m1, m2, m3) := m in (div m1 k, div m2 k, div m3 k).

(** [np.linalg.norm(a)]: the Euclidean norm. *)
Definition norm `{Linalg} (a : Vec3) : Q := np_sqrt (dot a a).

(** Equality of vectors as rationals, component by component. *)
Definition eq (a b : Vec3) : Prop :=
  let '(a1, a2, a3) := a in let '(b1, b2, b3) := b in
  a1 == b1 /\ a2 == b2 /\ a3 == b3.

(** The sum of a list of vectors. *)
Fixpoint sum (xs : list Vec3) : Vec3 :=
  match xs with
  | [] => zeros
  | x :: r => add x (sum r)
  end.

(** The arithmetic mean of a list of vectors: their sum over their
    number. *)
Definition arithmetic_mean (xs : list Vec3) : Vec3 :=
  div (sum xs) (inject_Z (len xs)).

End Vec.

(** ** StreamingPCA: incremental mean and covariance, projection on the
    dominant axis.  [n_dims] is fixed at the 3 the pipeline passes. *)

Module PCA.

Record StreamingPCA := {
  warmup : Z;
  n : Z;
  mean : Vec3;
  C : Mat3;
  prev_pc1 : option Vec3
}.

(** [StreamingPCA.__init__] *)
Definition init (warmup : Z) : StreamingPCA :=
  {| warmup := warmup; n := 0%Z; mean := Vec.zeros; C := Vec.zeros2;
     prev_pc1 := None |}.

(** The invariant of Welford's update, for the samples [seen] so far:
    [n] is their number and [n * mean] their sum. *)
Definition mean_tracks (self : StreamingPCA) (seen : list Vec3) : Prop :=
  n self = len seen /\
  Vec.eq (Vec.scale (inject_Z (n self)) (mean self)) (Vec.sum seen).

Section Update.
Context `{Linalg}.

(** [StreamingPCA.update] *)
Definition update (self : StreamingPCA) (x : Vec3) : StreamingPCA * Q :=
  let n' := (n self + 1)%Z in
  let delta := Vec.sub x (mean self) in
  let mean' := Vec.add (mean self) (Vec.div delta (inject_Z n')) in
  let delta2 := Vec.sub x mean' in
  let C' := Vec.madd (C self) (Vec.outer delta delta2) in
  if (n' <? warmup self)%Z
  then ({| warmup := warmup self; n := n'; mean := mean'; C := C';
           prev_pc1 := prev_pc1 self |},
        Vec.norm (Vec.sub x mean'))
  else
    let cov := Vec.mdiv C' (inject_Z n') in
    let pc1 := eigh_pc1 cov in
    let pc1 := match prev_pc1 self with
               | Some prev => if Qltb (Vec.dot pc1 prev) 0 then Vec.neg pc1 else pc1
               | None => pc1
               end in
    ({| warmup := warmup self; n := n'; mean := mean'; C := C';
        prev_pc1 := Some pc1 |},
     Vec.dot (Vec.sub x mean') pc1).

(** The projector after a list of samples, fed in order. *)
Definition update_all (self : StreamingPCA) (xs : list Vec3) : StreamingPCA :=
  fold_left (fun s x => fst (update s x)) xs self.

End Update.

End PCA.

(** ** What Welford's accumulator should hold

    The textbook objects the projector's state is compared with: the
    scatter matrix of a list of samples about a centre, and the
    quadratic form of a matrix. *)

Module Welford.

Inductive axis := Ax | Ay | Az.

(** [v[i]] *)
Definition coord (i : axis) (v : Vec3) : Q :=
  let '(v1, v2, v3) := v in
  match i with Ax => v1 | Ay => v2 | Az => v3 end.

(** [M[i, j]] *)
Definition entry (i j : axis) (M : Mat3) : Q :=
  let '(r1, r2, r3) := M in
  coord j (match i with Ax => r1 | Ay => r2 | Az => r3 end).

(** Equality of matrices as rationals, entry by entry. *)
Definition meq (A B : Mat3) : Prop :=
  forall i j, entry i j A == entry i j B.

(** The scatter matrix of [xs] about [m]: the sum of the outer products
    [(x - m)(x - m)^T]. *)
Fixpoint scatter (m : Vec3) (xs : list Vec3) : Mat3 :=
  match xs with
  | [] => Vec.zeros2
  | x :: r => Vec.madd (Vec.outer (Vec.sub x m) (Vec.sub x m)) (scatter m r)
  end.

(** [M @ v] and the quadratic form [v^T M v]. *)
Definition mat_vec (M : Mat3) (v : Vec3) : Vec3 :=
  let '(r1, r2, r3) := M in (Vec.dot r1 v, Vec.dot r2 v, Vec.dot r3 v).

Definition quad (M : Mat3) (v : Vec3) : Q := Vec.dot v (mat_vec M v).

(** Sums along one or two coordinates, for the proofs. *)
Fixpoint csum (f : Vec3 -> Q) (xs : list Vec3) : Q :=
  match xs with
  | [] => 0
  | x :: r => f x + csum f r
  end.

Fixpoint cross (f g : Vec3 -> Q) (a b : Q) (xs : list Vec3) : Q :=
  match xs with
  | [] => 0
  | x :: r => (f x - a) * (g x - b) + cross f g a b r
  end.

(** The sum of the squared projections of the centred samples on [v]. *)
Fixpoint squares (v m : Vec3) (xs : list Vec3) : Q :=
  match xs with
  | [] => 0
  | x :: r => Vec.dot v (Vec.sub x m) * Vec.dot v (Vec.sub x m) + squares v m r
  end.

(** The projector's state after the samples [seen]: the mean is
    tracked and [C] is their scatter matrix about the running mean. *)
Definition tracks (self : PCA.StreamingPCA) (seen : list Vec3) : Prop :=
  PCA.n self = len seen /\
  (forall i, inject_Z (PCA.n self) * coord i (PCA.mean self)
             == csum (coord i) seen) /\
  (forall i j, entry i j (PCA.C self)
               == cross (coord i) (coord j) (coord i (PCA.mean self))
                        (coord j (PCA.mean self)) seen).

End Welford.

(** ** StreamingSmoother: causal exponential moving average *)

Module Smoother.

Record StreamingSmoother := {
  alpha : Q;
  value : option Q
}.

(** [StreamingSmoother.__init__] *)
Definition init (alpha : Q) : StreamingSmoother :=
  {| alpha := alpha; value := None |}.

(** [StreamingSmoother.update] *)
Definition update (self : StreamingSmoother) (x : Q) : StreamingSmoother * Q :=
  let v := match value self with
           | None => x
           | Some prev => alpha self * x + (1 - alpha self) * prev
           end in
  ({| alpha := alpha self; value := Some v |}, v).

(** [StreamingSmoother.reset] *)
Definition reset (self : StreamingSmoother) : StreamingSmoother :=
  {| alpha := alpha self; value := None |}.

(** The outputs of successive [update] calls on a list of inputs, in
    order: output [t] is the return value of call [t]. *)
Fixpoint outputs (self : StreamingSmoother) (xs : list Q) : list Q :=
  match xs with
  | [] => []
  | x :: rest => let '(self', y) := update self x in y :: outputs self' rest
  end.

End Smoother.

(** ** StreamingPipeline: PCA, then smoothing, then rep detection *)

Module Pipeline.

Record StreamingPipeline := {
  pca : PCA.StreamingPCA;
  smoother : Smoother.StreamingSmoother;
  counter : RepCounter.StreamingRepCounter;
  raw_history : list Vec3;
  pc1_raw_history : list Q;
  pc1_smooth_history : list Q
}.

(** [StreamingPipeline.__init__] *)
Definition init (amplitude_threshold : Q) (min_samples_between_reps baseline_window
    pca_warmup : Z) (smooth_alpha : Q) : StreamingPipeline :=
  {| pca := PCA.init pca_warmup;
     smoother := Smoother.init smooth_alpha;
     counter := RepCounter.init amplitude_threshold min_samples_between_reps
                                baseline_window;
     raw_history := [];
     pc1_raw_history := [];
     pc1_smooth_history := [] |}.

Section Process.
Context `{Linalg}.

(** [StreamingPipeline.process_sample]; [None] when the counter raises. *)
Definition process_sample (self : StreamingPipeline) (ax ay az : Q) (sample_idx : Z)
  : option (StreamingPipeline * RepCounter.result) :=
  let raw : Vec3 := (ax, ay, az) in
  let '(pca', pc1_value) := PCA.update (pca self) raw in
  let '(smoother', pc1_smooth) := Smoother.update (smoother self) pc1_value in
  match RepCounter.process_sample (counter self) pc1_smooth sample_idx with
  | None => None
  | Some (counter', result) =>
      Some ({| pca := pca'; smoother := smoother'; counter := counter';
               raw_history := raw_history self ++ [raw];
               pc1_raw_history := pc1_raw_history self ++ [pc1_value];
               pc1_smooth_history := pc1_smooth_history self ++ [pc1_smooth] |},
            result)
  end.

End Process.

Section Simulate.
Context `{Linalg}.

(** The [for] loop of [simulate_streaming] (lines 351-353), from index
    [i] on: sample [k] of [raw_data] goes through [process_sample] with
    index [i + k], and the results are collected in order.  The prints
    around the loop and the explained-variance report after it are not
    part of it. *)
Fixpoint simulate_from (pipeline : StreamingPipeline) (i : Z) (raw_data : list Vec3)
  : option (StreamingPipeline * list RepCounter.result) :=
  match raw_data with
  | [] => Some (pipeline, [])
  | (ax, ay, az) :: rest =>
      match process_sample pipeline ax ay az i with
      | None => None
      | Some (pipeline', result) =>
          match simulate_from pipeline' (i + 1)%Z rest with
          | None => None
          | Some (pipeline'', results) => Some (pipeline'', result :: results)
          end
      end
  end.

End Simulate.

End Pipeline.

(** ** RepServer: the session broker of [ws_server.py]

    A WebSocket connection is a number.  One pass of the consumer loop
    and the handling of one viewer message are each taken as one step:
    the event loop runs one task at a time, and the interleaving of
    other tasks at the [await]s inside a step is not modelled. *)

Module Server.

Definition AUTO_DETECT_SAMPLES : Z := 200.

(** The dicts the server hands to [json.dumps]. *)
Inductive message :=
| Connected
| Rep (rep_count : Z) (amplitude : Q)
| Speed (speed_deviation : Q) (phase : string) (active : bool)
| SetBoundary (rep_count : Z)
| Status (sample_idx rep_count : Z)
| ExerciseDetected (exercise : string) (rep_count : Z) (error : option string)
| ResetAck
| AutoDetectStarted (samples_needed : Z).

(** A JSON value, as [json.loads] returns it; an object is the list of
    its items. *)
Inductive json :=
| JNull
| JBool (b : bool)
| JNumber (q : Q)
| JString (s : string)
| JArray (l : list json)
| JObject (items : list (string * json)).

(** What [json.loads(message)] does with a viewer's message. *)
Inductive loaded :=
| JSONDecodeError
| Loaded (data : json).

Inductive exn := AttributeError | TypeError | ConnectionClosed | QueueFull.

Definition sample : Type := Z * Z * Z.

(** [asyncio.Queue]: [maxsize] and the queued items, oldest first. *)
Record Queue := {
  maxsize : Z;
  items : list sample
}.

(** The attributes of [RepServer] the session logic reads or writes
    (the serial and socket addresses are left out). *)
Record RepServer := {
  clients : list nat;
  pipeline : option Pipeline.StreamingPipeline;
  sample_idx : Z;
  sample_queue : option Queue;
  running : bool;
  auto_detect_buffer : option (list Vec3)
}.

(** [RepServer.__init__] *)
Definition init : RepServer :=
  {| clients := []; pipeline := None; sample_idx := 0%Z; sample_queue := None;
     running := false; auto_detect_buffer := None |}.

(** What a step meets outside the server: which connections raise
    [ConnectionClosed] on [send], and the classifier.  [classifier] is
    [None] when [_load_classifier] returns no model; applied to a
    buffer, [inl label] is the label [classify_exercise] returns and
    [inr e] the text of the exception it raises. *)
Record World := {
  connection_closed : nat -> bool;
  classifier : option (list Vec3 -> string + string)
}.

Definition set_clients (self : RepServer) (cs : list nat) : RepServer :=
  {| clients := cs; pipeline := pipeline self; sample_idx := sample_idx self;
     sample_queue := sample_queue self; running := running self;
     auto_detect_buffer := auto_detect_buffer self |}.

Definition set_buffer (self : RepServer) (b : option (list Vec3)) : RepServer :=
  {| clients := clients self; pipeline := pipeline self;
     sample_idx := sample_idx self; sample_queue := sample_queue self;
     running := running self; auto_detect_buffer := b |}.

Definition set_queue (self : RepServer) (q : Queue) : RepServer :=
  {| clients := clients self; pipeline := pipeline self;
     sample_idx := sample_idx self; sample_queue := Some q;
     running := running self; auto_detect_buffer := auto_detect_buffer self |}.

(** *** The handoff queue *)

(** [Queue.full] *)
Definition full (q : Queue) : bool :=
  if (maxsize q <=? 0)%Z then false else (len (items q) >=? maxsize q)%Z.

(** [Queue.put_nowait]: raises [QueueFull] on a full queue. *)
Definition put_nowait (q : Queue) (item : sample) : Queue + exn :=
  if full q then inr QueueFull
  else inl {| maxsize := maxsize q; items := items q ++ [item] |}.

(** The callback [_serial_reader] and [_mock_reader] schedule with
    [loop.call_soon_threadsafe(self.sample_queue.put_nowait, sample)].
    No [try] of the repository surrounds it: an exception it raises
    leaves the callback and is reported by the event loop. *)
Definition enqueue_callback (self : RepServer) (item : sample)
  : RepServer * option exn :=
  match sample_queue self with
  | None => (self, Some AttributeError)
  | Some q =>
      match put_nowait q item with
      | inl q' => (set_queue self q', None)
      | inr e => (self, Some e)
      end
  end.

(** The callbacks for a run of samples, in order, with no pass of the
    consumer loop in between. *)
Definition enqueue_all (self : RepServer) (produced : list sample) : RepServer :=
  fold_left (fun s item => fst (enqueue_callback s item)) produced self.

(** The state [RepServer.start] sets up before it serves. *)
Definition start (self : RepServer) : RepServer :=
  {| clients := clients self; pipeline := pipeline self;
     sample_idx := sample_idx self;
     sample_queue := Some {| maxsize := 1000; items := [] |};
     running := true; auto_detect_buffer := auto_detect_buffer self |}.

(** *** Sessions *)

(** [RepServer._reset_pipeline] *)
Definition _reset_pipeline (self : RepServer) : RepServer :=
  {| clients := clients self;
     pipeline := Some (Pipeline.init 21 20 50 30 (15 # 100));
     sample_idx := 0%Z;
     sample_queue := sample_queue self; running := running self;
     auto_detect_buffer := auto_detect_buffer self |}.

(** *** The consumer loop

    A pass reads and writes the server and broadcasts on the way:
    [Loop A] threads the server, collects the broadcasts and is [None]
    when the pipeline raises. *)

Record broadcast_event := {
  sent : message;
  delivered : list nat
}.

Definition Loop (A : Type) : Type :=
  RepServer -> option (A * RepServer * list broadcast_event).

Definition ret {A} (a : A) : Loop A := fun self => Some (a, self, []).

Definition bind {A B} (m : Loop A) (k : A -> Loop B) : Loop B :=
  fun self =>
    match m self with
    | None => None
    | Some (a, self1, out1) =>
        match k a self1 with
        | None => None
        | Some (b, self2, out2) => Some (b, self2, out1 ++ out2)
        end
    end.

Notation "m ;; k" := (bind m (fun _ => k))
  (at level 61, right associativity).

Definition when (b : bool) (m : Loop unit) : Loop unit :=
  if b then m else ret tt.

(** [RepServer._broadcast]: every client is sent the message; those
    whose [send] raises [ConnectionClosed] leave the set. *)
Definition _broadcast (w : World) (msg : message) : Loop unit :=
  fun self =>
    let alive := filter (fun ws => negb (connection_closed w ws)) (clients self) in
    Some (tt, set_clients self alive, [{| sent := msg; delivered := alive |}]).

(** Python's [round(x, 2)]: to the nearest hundredth, ties to even. *)
Definition round_half_even (q : Q) : Z :=
  let f := Qfloor q in
  match ((q - inject_Z f) ?= (1 # 2))%Q with
  | Lt => f
  | Gt => (f + 1)%Z
  | Eq => if Z.even f then f else (f + 1)%Z
  end.

Definition round2 (q : Q) : Q := inject_Z (round_half_even (q * 100)) / 100.

Definition to_float (s : sample) : Vec3 :=
  let '(ax, ay, az) := s in (inject_Z ax, inject_Z ay, inject_Z az).

(** The repetition count [_process_samples] captures for the
    classification message (lines 187-191). *)
Definition captured_rep_count (self : RepServer) : Z :=
  match pipeline self with
  | Some p => RepCounter.rep_count (Pipeline.counter p)
  | None => 0%Z
  end.

(** Lines 181-219: the auto-detect stage of one pass. *)
Definition auto_detect (w : World) (s : sample) : Loop unit :=
  fun self =>
    match auto_detect_buffer self with
    | None => ret tt self
    | Some buf =>
        let buffer := buf ++ [to_float s] in
        if (len buffer >=? AUTO_DETECT_SAMPLES)%Z
        then
          let self1 := set_buffer self None in
          let rep_count := captured_rep_count self1 in
          match classifier w with
          | Some classify_exercise =>
              if (len buffer >=? 10)%Z
              then
                match classify_exercise buffer with
                | inl pred =>
                    _broadcast w (ExerciseDetected pred rep_count None) self1
                | inr e =>
                    _broadcast w (ExerciseDetected "bicep_curl" rep_count (Some e))
                               self1
                end
              else _broadcast w (ExerciseDetected "bicep_curl" rep_count None) self1
          | None => _broadcast w (ExerciseDetected "bicep_curl" rep_count None) self1
          end
        else ret tt (set_buffer self (Some buffer))
    end.

Section Consumer.
Context `{Linalg}.

(** Lines 221-266: the sample goes through the pipeline; the rep, speed
    and status messages follow.  The result dict has no [set_boundary]
    key, so that message is never sent. *)
Definition run_pipeline (w : World) (s : sample) : Loop unit :=
  fun self =>
    match pipeline self with
    | None => ret tt self
    | Some p =>
        let '(ax, ay, az) := to_float s in
        match Pipeline.process_sample p ax ay az (sample_idx self) with
        | None => None
        | Some (p', result) =>
            let idx := (sample_idx self + 1)%Z in
            let self1 :=
              {| clients := clients self; pipeline := Some p'; sample_idx := idx;
                 sample_queue := sample_queue self; running := running self;
                 auto_detect_buffer := auto_detect_buffer self |} in
            (when (RepCounter.rep_detected result)
               (_broadcast w (Rep (RepCounter.res_rep_count result)
                                  (round2 (RepCounter.amplitude result)))) ;;
             when (idx mod 3 =? 0)%Z
               (_broadcast w (Speed 0 "concentric" false)) ;;
             when false
               (_broadcast w (SetBoundary (RepCounter.res_rep_count result))) ;;
             when (idx mod 50 =? 0)%Z
               (_broadcast w (Status idx (RepCounter.res_rep_count result))))
              self1
        end
    end.

(** One pass of the [while self.running] loop of [_process_samples],
    for the sample taken off the queue. *)
Definition process_one (w : World) (s : sample) : Loop unit :=
  auto_detect w s ;; run_pipeline w s.

(** Successive passes, one per sample in arrival order, each in the
    world it meets. *)
Fixpoint process_many (steps : list (World * sample)) : Loop unit :=
  match steps with
  | [] => ret tt
  | (w, s) :: rest => process_one w s ;; process_many rest
  end.

End Consumer.

(** The messages broadcast during a run, in order, whoever received
    them. *)
Definition messages {A} (r : option (A * RepServer * list broadcast_event))
  : option (list message) :=
  match r with
  | None => None
  | Some (_, _, out) => Some (map sent out)
  end.

(** *** Viewer connections *)

(** [data.get("action")] on a dict. *)
Fixpoint get (key : string) (items : list (string * json)) : option json :=
  match items with
  | [] => None
  | (k, v) :: rest => if String.eqb k key then Some v else get key rest
  end.

(** [v == s] for a [str] [s]. *)
Definition is_str (v : option json) (s : string) : bool :=
  match v with
  | Some (JString t) => String.eqb t s
  | _ => false
  end.

(** How the body of the [async for] ends for one message: the loop goes
    on to the next message, or an exception leaves the loop. *)
Inductive outcome :=
| Next (self : RepServer) (replies : list message)
| Raises (e : exn) (self : RepServer).

(** [await websocket.send(...)] *)
Definition send (w : World) (ws : nat) (msg : message) (self : RepServer) : outcome :=
  if connection_closed w ws then Raises ConnectionClosed self else Next self [msg].

(** Lines 295-311: the body of the [async for], for one message. *)
Definition on_message (w : World) (ws : nat) (self : RepServer) (m : loaded)
  : outcome :=
  match m with
  | JSONDecodeError => Next self []
  | Loaded (JObject data) =>
      if is_str (get "action" data) "reset"
      then send w ws ResetAck (set_buffer (_reset_pipeline self) None)
      else if is_str (get "action" data) "start_auto_detect"
      then send w ws (AutoDetectStarted AUTO_DETECT_SAMPLES)
                (set_buffer self (Some []))
      else Next self []
  | Loaded _ => Raises AttributeError self
  end.

(** How [_handle_client] ends. *)
Inductive ending :=
| IteratorEnded            (* the viewer closed; the [async for] is over *)
| Caught                   (* [ConnectionClosed], caught at line 312 *)
| Escaped (e : exn).       (* any other exception: it leaves the handler *)

Record handled := {
  server : RepServer;
  replies : list message;
  how : ending;
  unread : list loaded
}.

(** Lines 293-313: the [async for] over the viewer's messages inside
    its [try]. *)
Fixpoint message_loop (w : World) (ws : nat) (self : RepServer)
    (msgs : list loaded) : handled :=
  match msgs with
  | [] => {| server := self; replies := []; how := IteratorEnded; unread := [] |}
  | m :: rest =>
      match on_message w ws self m with
      | Next self' out =>
          let h := message_loop w ws self' rest in
          {| server := server h; replies := out ++ replies h; how := how h;
             unread := unread h |}
      | Raises ConnectionClosed self' =>
          {| server := self'; replies := []; how := Caught; unread := rest |}
      | Raises e self' =>
          {| server := self'; replies := []; how := Escaped e; unread := rest |}
      end
  end.

(** [clients.add(ws)] and [clients.discard(ws)] on the set. *)
Definition add_client (ws : nat) (cs : list nat) : list nat :=
  if existsb (Nat.eqb ws) cs then cs else cs ++ [ws].

Definition discard_client (ws : nat) (cs : list nat) : list nat :=
  filter (fun c => negb (Nat.eqb ws c)) cs.

(** Lines 282-291: a viewer connects. *)
Definition on_connect (w : World) (ws : nat) (self : RepServer) : outcome :=
  send w ws Connected
       (_reset_pipeline (set_clients self (add_client ws (clients self)))).

(** [RepServer._handle_client] for a viewer that sends [msgs] and then
    closes.  The [finally] discards the client however the loop ends;
    when the handler ends, so does the connection. *)
Definition _handle_client (w : World) (ws : nat) (self : RepServer)
    (msgs : list loaded) : handled :=
  match on_connect w ws self with
  | Raises e self' =>
      {| server := self'; replies := []; how := Escaped e; unread := msgs |}
  | Next self' hello =>
      let h := message_loop w ws self' msgs in
      {| server := set_clients (server h) (discard_client ws (clients (server h)));
         replies := hello ++ replies h; how := how h; unread := unread h |}
  end.

(** The server an outcome leaves behind. *)
Definition after (o : outcome) : RepServer :=
  match o with
  | Next self _ => self
  | Raises _ self => self
  end.

(** *** Sessions, compared

    A session is the pipeline, the sample index and the classification
    buffer.  Two runs agree when both raise, or both return with the
    same value, the same messages in the same order, and servers that
    hold the same session. *)
Definition same_session (a b : RepServer) : Prop :=
  pipeline a = pipeline b /\
  sample_idx a = sample_idx b /\
  auto_detect_buffer a = auto_detect_buffer b.

Definition agree {A} (ra rb : option (A * RepServer * list broadcast_event)) : Prop :=
  match ra, rb with
  | None, None => True
  | Some (x, a, oa), Some (y, b, ob) =>
      x = y /\ same_session a b /\ map sent oa = map sent ob
  | _, _ => False
  end.

(** A computation whose value, messages and session depend on the
    session alone, not on who is connected. *)
Definition session_determined {A} (m : Loop A) : Prop :=
  forall a b, same_session a b -> agree (m a) (m b).

(** Worlds for examples: every connection is open; no model is loaded,
    or the classifier raises. *)
Definition no_model : World :=
  {| connection_closed := fun _ => false; classifier := None |}.

Definition failing_classifier : World :=
  {| connection_closed := fun _ => false;
     classifier := Some (fun _ => inr "Data too short to classify"%string) |}.

(** *** The consumer's side of the queue *)

(** [Queue.get] when an item is waiting: the oldest item leaves. *)
Definition get_item (q : Queue) : option (sample * Queue) :=
  match items q with
  | [] => None
  | s :: rest => Some (s, {| maxsize := maxsize q; items := rest |})
  end.

Section ConsumerQueue.
Context `{Linalg}.

(** Lines 172-178 followed by the rest of the pass: the loop takes the
    oldest queued sample and runs the pass on it; on an empty queue the
    wait times out and the loop goes round ([continue]).  [None] also
    stands for the [AttributeError] of a server never started. *)
Definition consumer_pass (w : World) : Loop unit :=
  fun self =>
    match sample_queue self with
    | None => None
    | Some q =>
        match get_item q with
        | None => ret tt self
        | Some (s, q') => process_one w s (set_queue self q')
        end
    end.

(** [k] rounds of the loop, all in the world [w]. *)
Fixpoint consume (w : World) (k : nat) : Loop unit :=
  match k with
  | O => ret tt
  | S k' => consumer_pass w ;; consume w k'
  end.

End ConsumerQueue.

(** *** Reading a run's broadcasts *)

Definition is_status (m : message) : bool :=
  match m with Status _ _ => true | _ => false end.

Definition is_speed (m : message) : bool :=
  match m with Speed _ _ _ => true | _ => false end.

Definition is_exercise (m : message) : bool :=
  match m with ExerciseDetected _ _ _ => true | _ => false end.

(** The counts the [rep] messages carry, in order. *)
Definition rep_counts (ms : list message) : list Z :=
  flat_map (fun m => match m with Rep c _ => [c] | _ => [] end) ms.

(** The connections that do not raise on [send]. *)
Definition open_clients (w : World) (cs : list nat) : list nat :=
  filter (fun ws => negb (connection_closed w ws)) cs.

(** What a pass leaves of the client set, given what it broadcast. *)
Definition clients_after (w : World) (self : RepServer)
    (out : list broadcast_event) : list nat :=
  match out with
  | [] => clients self
  | _ :: _ => open_clients w (clients self)
  end.

(** A computation that leaves [running] and the queue alone, delivers
    each broadcast to the open connections among the clients it started
    with, and drops the closed ones once it has broadcast. *)
Definition pass_frame (w : World) (m : Loop unit) : Prop :=
  forall self u self' out,
    m self = Some (u, self', out) ->
    running self' = running self /\
    sample_queue self' = sample_queue self /\
    clients self' = clients_after w self out /\
    Forall (fun e => delivered e = open_clients w (clients self)) out.

(** The messages the pipeline stage sends for a result, at the sample
    index [idx] it has just moved to. *)
Definition pipeline_messages (idx : Z) (result : RepCounter.result) : list message :=
  (if RepCounter.rep_detected result
   then [Rep (RepCounter.res_rep_count result)
             (round2 (RepCounter.amplitude result))]
   else [])
  ++ (if (idx mod 3 =? 0)%Z then [Speed 0 "concentric" false] else [])
  ++ (if (idx mod 50 =? 0)%Z
      then [Status idx (RepCounter.res_rep_count result)] else []).

(** [c + 1, c + 2, ..., c + k] *)
Fixpoint count_up (c : Z) (k : nat) : list Z :=
  match k with
  | O => []
  | S k' => (c + 1)%Z :: count_up (c + 1) k'
  end.

(** The messages the consumer loop has a line for that can run: a rep,
    a speed message with the defaults of lines 244-246, a status, or a
    classification result. *)
Definition loop_message (m : message) : Prop :=
  match m with
  | Rep _ _ | Status _ _ | ExerciseDetected _ _ _ => True
  | Speed deviation phase active =>
      deviation = 0 /\ phase = "concentric"%string /\ active = false
  | Connected | SetBoundary _ | ResetAck | AutoDetectStarted _ => False
  end.

(** A run's outcome with the queue replaced at the end. *)
Definition with_queue {A} (q : Queue)
    (r : option (A * RepServer * list broadcast_event))
  : option (A * RepServer * list broadcast_event) :=
  match r with
  | None => None
  | Some (a, self, out) => Some (a, set_queue self q, out)
  end.

(** A computation that neither reads nor writes the queue. *)
Definition queue_blind {A} (m : Loop A) : Prop :=
  forall self q, m (set_queue self q) = with_queue q (m self).

(** A world in which connection 2 has closed. *)
Definition two_closed : World :=
  {| connection_closed := fun ws => Nat.eqb ws 2; classifier := None |}.

(** A server in mid-session, for examples: three clients, 49 samples
    processed so far by a pipeline that has seen none of them. *)
Definition mid_session : RepServer :=
  {| clients := [1; 2; 3]%nat;
     pipeline := Some (Pipeline.init 21 20 50 30 (15 # 100));
     sample_idx := 49%Z;
     sample_queue := Some {| maxsize := 1000; items := [] |};
     running := true;
     auto_detect_buffer := None |}.

(** Servers for examples, around a pipeline whose counter has seen
    twenty samples 0, then 100, then 0 (and then 10, for the counted
    one), and whose smoother holds 100: the first has a repetition
    about to be counted, the second has counted one. *)
Definition example_pipeline (counter : RepCounter.StreamingRepCounter)
  : Pipeline.StreamingPipeline :=
  {| Pipeline.pca := PCA.init 30;
     Pipeline.smoother := {| Smoother.alpha := 15 # 100; Smoother.value := Some 100 |};
     Pipeline.counter := counter;
     Pipeline.raw_history := [];
     Pipeline.pc1_raw_history := [];
     Pipeline.pc1_smooth_history := [] |}.

Definition about_to_count : RepServer :=
  {| clients := [1; 2; 3]%nat;
     pipeline := Some (example_pipeline
                         (RepCounter.state_after 21 20 50 (repeat 0 20 ++ [100; 0])));
     sample_idx := 22%Z;
     sample_queue := Some {| maxsize := 1000; items := [] |};
     running := true;
     auto_detect_buffer := None |}.

Definition counted_session : RepServer :=
  {| clients := [1; 2; 3]%nat;
     pipeline := Some (example_pipeline
                         (RepCounter.state_after 21 20 50
                            (repeat 0 20 ++ [100; 0; 10])));
     sample_idx := 23%Z;
     sample_queue := Some {| maxsize := 1000; items := [] |};
     running := true;
     auto_detect_buffer := Some (repeat (0, 0, 0) 199) |}.

(** *** Connections that close while they are served

    [_handle_client] again, with each message handled in the world it
    meets: a connection that took the greeting may have closed by the
    time a reply is sent.  With one world throughout it is
    [_handle_client]. *)
Fixpoint message_loop_each (ws : nat) (self : RepServer)
    (msgs : list (World * loaded)) : handled :=
  match msgs with
  | [] => {| server := self; replies := []; how := IteratorEnded; unread := [] |}
  | (w, m) :: rest =>
      match on_message w ws self m with
      | Next self' out =>
          let h := message_loop_each ws self' rest in
          {| server := server h; replies := out ++ replies h; how := how h;
             unread := unread h |}
      | Raises ConnectionClosed self' =>
          {| server := self'; replies := []; how := Caught;
             unread := map snd rest |}
      | Raises e self' =>
          {| server := self'; replies := []; how := Escaped e;
             unread := map snd rest |}
      end
  end.

Definition _handle_client_each (w : World) (ws : nat) (self : RepServer)
    (msgs : list (World * loaded)) : handled :=
  match on_connect w ws self with
  | Raises e self' =>
      {| server := self'; replies := []; how := Escaped e; unread := map snd msgs |}
  | Next self' hello =>
      let h := message_loop_each ws self' msgs in
      {| server := set_clients (server h) (discard_client ws (clients (server h)));
         replies := hello ++ replies h; how := how h; unread := unread h |}
  end.

End Server.


(** ** The classifier's entry point, [train_classifier.py]

    [extract_window_features] and the fitted scikit-learn pipeline are
    taken together as one parameter, [predict_window]: the label the
    pipeline predicts for the feature row of one window, or the text of
    the exception either raises (a window whose features are nan, for
    one).  The pipeline predicts row by row. *)

Module Classifier.

Inductive error :=
| TooShort                 (* line 278 *)
| RangeStepZero            (* [range()] with step 0 *)
| NoWindow                 (* [predict] on an array with no row *)
| PredictError (text : string).

(** [data[start:stop]] for Python ints: a negative index counts from
    the end, and both are clamped to the list. *)
Definition slice {A} (data : list A) (start stop : Z) : list A :=
  let n := len data in
  let norm i := if (i <? 0)%Z then Z.max (i + n) 0 else Z.min i n in
  firstn (Z.to_nat (norm stop - norm start)) (skipn (Z.to_nat (norm start)) data).

(** [range(0, stop, step)]: [None] is the [ValueError] of a zero step. *)
Definition range0 (stop step : Z) : option (list Z) :=
  if (step =? 0)%Z then None
  else
    let count :=
      if (0 <? step)%Z
      then (if (0 <? stop)%Z then (stop - 1) / step + 1 else 0)%Z
      else (if (stop <? 0)%Z then (- stop - 1) / (- step) + 1 else 0)%Z in
    Some (map (fun k => (Z.of_nat k * step)%Z) (seq 0 (Z.to_nat count))).

(** [windows_from_sequence], its windows collected in a list. *)
Definition windows_from_sequence {A} (data : list A) (window_size step : Z)
  : option (list (list A)) :=
  let n := len data in
  match range0 (n - window_size + 1) step with
  | None => None
  | Some starts =>
      Some (map (fun start => slice data start (start + window_size)) starts)
  end.

(** [np.unique]: the distinct values, sorted. *)
Fixpoint insert_unique (l : string) (sorted : list string) : list string :=
  match sorted with
  | [] => [l]
  | k :: rest =>
      match String_as_OT.compare l k with
      | Eq => k :: rest
      | Lt => l :: k :: rest
      | Gt => k :: insert_unique l rest
      end
  end.

Definition np_unique (preds : list string) : list string :=
  fold_right insert_unique [] preds.

(** The counts [np.unique(..., return_counts=True)] returns next to the
    values: how often each comes up. *)
Definition unique_counts (preds unique : list string) : list nat :=
  map (count_occ string_dec preds) unique.

(** [np.argmax]: the index of the first maximum. *)
Fixpoint argmax_from (i best : nat) (best_val : nat) (counts : list nat) : nat :=
  match counts with
  | [] => best
  | c :: rest =>
      if (best_val <? c)%nat then argmax_from (S i) i c rest
      else argmax_from (S i) best best_val rest
  end.

Definition np_argmax (counts : list nat) : nat :=
  match counts with
  | [] => 0%nat
  | c :: rest => argmax_from 1 0 c rest
  end.

(** [pipeline.predict(X)] for the rows of a list of windows: the labels,
    or the first exception. *)
Fixpoint predict_all {A} (predict_window : list A -> string + string)
    (windows : list (list A)) : list string + error :=
  match windows with
  | [] => inl []
  | win :: rest =>
      match predict_window win with
      | inr text => inr (PredictError text)
      | inl label =>
          match predict_all predict_window rest with
          | inr e => inr e
          | inl labels => inl (label :: labels)
          end
      end
  end.

(** [classify_exercise] *)
Definition classify_exercise {A} (predict_window : list A -> string + string)
    (data : list A) (window_size step : Z) : string + error :=
  if (len data <? window_size)%Z
  then
    let window_size_use := Z.min window_size (len data) in
    if (window_size_use <? 10)%Z then inr TooShort
    else
      match predict_window (slice data 0 window_size_use) with
      | inl label => inl label
      | inr text => inr (PredictError text)
      end
  else
    match windows_from_sequence data window_size step with
    | None => inr RangeStepZero
    | Some [] => inr NoWindow
    | Some windows =>
        match predict_all predict_window windows with
        | inr e => inr e
        | inl preds =>
            let unique := np_unique preds in
            inl (nth (np_argmax (unique_counts preds unique)) unique ""%string)
        end
    end.

(** A stand-in for examples: a window is a curl when its first sample
    points up. *)
Definition toy_predict (win : list Vec3) : string + string :=
  match win with
  | (_, _, az) :: _ => if Qltb 0 az then inl "bicep_curl"%string
                       else inl "shoulder_press"%string
  | [] => inr "empty window"%string
  end.

End Classifier.
(** * Properties *)

(** ** Comparisons *)

Lemma Qltb_lt (x y : Q) : Qltb x y = true <-> x < y.
Proof.
  unfold Qltb. rewrite Qlt_alt.
  destruct (x ?= y); split; intro E; try reflexivity; discriminate E.
Qed.

Lemma Qltb_ge (x y : Q) : Qltb x y = false <-> y <= x.
Proof.
  split; intro E.
  - apply Qnot_lt_le. intro L. apply Qltb_lt in L. congruence.
  - destruct (Qltb x y) eqn:L; [|reflexivity].
    apply Qltb_lt in L. exfalso. exact (Qlt_not_le _ _ L E).
Qed.

Lemma len_app_one {A} (xs : list A) (x : A) : len (xs ++ [x]) = (len xs + 1)%Z.
Proof. unfold len. rewrite length_app. simpl. lia. Qed.

Lemma len_tl_app_one {A} (xs : list A) (x : A) : len (tl (xs ++ [x])) = len xs.
Proof. unfold len. destruct xs; simpl; [reflexivity|]. rewrite length_app. simpl. lia. Qed.

(** ** The repetition detector *)

Module RepCounterFacts.
Import RepCounter.

(** Splits a goal about one call along the branches of
    [process_sample]. *)
Ltac branches :=
  unfold process_sample;
  repeat match goal with
         | |- context [match ?x with _ => _ end] =>
             match x with
             | context [match _ with _ => _ end] => fail 1
             | _ => destruct x eqn:?
             end
         end.

(** The configured parameters never change. *)
Lemma process_sample_config self v i self' r :
  process_sample self v i = Some (self', r) ->
  amplitude_threshold self' = amplitude_threshold self /\
  min_samples_between_reps self' = min_samples_between_reps self /\
  baseline_window self' = baseline_window self.
Proof.
  revert self' r. branches; intros self' r E; inversion E; subst; simpl; auto.
Qed.

Lemma reachable_config t m w self :
  reachable t m w self ->
  amplitude_threshold self = t /\ min_samples_between_reps self = m /\
  baseline_window self = w.
Proof.
  induction 1 as [|self v i self' r _ IH E]; [simpl; auto|].
  apply process_sample_config in E. intuition congruence.
Qed.

Lemma process_sample_trackers self v i self' r :
  trackers_set self ->
  process_sample self v i = Some (self', r) ->
  trackers_set self'.
Proof.
  unfold trackers_set. intros I. revert self' r.
  branches; intros self' r E; inversion E; subst; simpl; intros S;
    try discriminate S; split; try discriminate;
    try (destruct I as [I1 I2]; [assumption|]; congruence).
Qed.

Lemma reachable_trackers t m w self :
  reachable t m w self -> trackers_set self.
Proof.
  induction 1 as [|self v i self' r _ IH E].
  - intros S. discriminate S.
  - eapply process_sample_trackers; eauto.
Qed.

(** A call on a state with its trackers set returns. *)
Lemma process_sample_returns self v i :
  trackers_set self -> exists self' r, process_sample self v i = Some (self', r).
Proof.
  unfold trackers_set. intros I.
  branches; try (eexists; eexists; reflexivity);
    exfalso; destruct I as [I1 I2]; auto.
Qed.

Lemma process_all_reachable t m w self idx signals :
  reachable t m w self ->
  exists self' rs,
    process_all self idx signals = Some (self', rs) /\
    List.length rs = List.length signals /\
    reachable t m w self'.
Proof.
  revert self idx. induction signals as [|x rest IH]; intros self idx R.
  - exists self, []. auto.
  - destruct (process_sample_returns self x idx (reachable_trackers _ _ _ _ R))
      as (s1 & r & E).
    destruct (IH s1 (idx + 1)%Z (reach_step _ _ _ _ _ _ _ _ R E))
      as (s2 & rs & E2 & L & R2).
    exists s2, (r :: rs). simpl. rewrite E, E2, L. auto.
Qed.

Lemma state_after_reachable t m w signals :
  reachable t m w (state_after t m w signals).
Proof.
  unfold state_after.
  destruct (process_all_reachable t m w (init t m w) 0 signals (reach_init t m w))
    as (s & rs & E & _ & R).
  rewrite E. exact R.
Qed.

(** The [amplitude] key of every returned dict is 0: line 236 reads
    [self.state] after line 221 has set it back to WAITING_FOR_PEAK. *)
Lemma process_sample_amplitude_zero self v i self' r :
  process_sample self v i = Some (self', r) -> amplitude r = 0.
Proof.
  revert self' r. branches; intros self' r E; inversion E; subst; reflexivity.
Qed.

(** A call made while a peak is awaited returns and leaves the count
    alone. *)
Lemma peak_call self v i :
  state self = WAITING_FOR_PEAK ->
  exists self' r, process_sample self v i = Some (self', r) /\
                  rep_count self' = rep_count self.
Proof.
  intros S. unfold process_sample. rewrite S.
  repeat match goal with
         | |- context [match ?x with _ => _ end] => destruct x eqn:?
         end; eexists; eexists; split; reflexivity.
Qed.

(** A call made while a valley is awaited returns; the count goes up by
    one when the three tests of lines 210-214 pass, and stays otherwise. *)
Lemma valley_call self v i p v0 :
  state self = WAITING_FOR_VALLEY ->
  current_peak self = Some p ->
  current_valley self = Some v0 ->
  let valley := tracked_valley v0 (centered self v) in
  exists self' r,
    process_sample self v i = Some (self', r) /\
    rep_count self' =
      if Qltb (valley + hysteresis) (centered self v)
         && counts self (p - valley) (samples_since_last_rep self + 1)
      then (rep_count self + 1)%Z else rep_count self.
Proof.
  intros S P V valley. unfold process_sample. rewrite S, V, P.
  fold (centered self v). fold valley.
  destruct (Qltb (valley + hysteresis) (centered self v)); simpl;
    [destruct (counts self (p - valley) (samples_since_last_rep self + 1))|];
    eexists; eexists; split; reflexivity.
Qed.

(** C1, at a failing input.  The counter of the server's configuration
    (threshold 21, spacing 20, window 50) is fed twenty samples 0, then
    100, then 0, and then 10.  The last call completes an oscillation
    whose peak-to-valley amplitude exceeds the threshold: it returns
    [rep_detected = true] with count 1 and appends that amplitude to
    [rep_amplitudes], yet the [amplitude] key of the returned dict is 0,
    which is not the amplitude and does not exceed the threshold. *)
Theorem detected_amplitude_is_zero :
  exists before rs after r peak valley,
    process_all (init 21 20 50) 0 (repeat 0 20 ++ [100; 0]) = Some (before, rs) /\
    current_peak before = Some peak /\
    current_valley before = Some valley /\
    process_sample before 10 22 = Some (after, r) /\
    rep_detected r = true /\
    res_rep_count r = 1%Z /\
    rep_amplitudes after = [peak - tracked_valley valley (centered before 10)] /\
    amplitude_threshold before < peak - tracked_valley valley (centered before 10) /\
    amplitude r = 0 /\
    ~ amplitude r == peak - tracked_valley valley (centered before 10) /\
    ~ amplitude_threshold before < amplitude r.
Proof.
  do 6 eexists.
  split; [vm_compute; reflexivity|].
  split; [reflexivity|].
  split; [reflexivity|].
  split; [vm_compute; reflexivity|].
  repeat split; try (vm_compute; reflexivity); vm_compute; discriminate.
Qed.

(** C2.  For every call on a counter in a state it can reach: the call
    returns; the count stays or goes up by exactly one; it goes up
    exactly when the counter awaits a valley, the centred signal is more
    than the hysteresis margin above the tracked valley, peak minus
    valley is strictly above the amplitude threshold, and the debounce
    counter, as this call has just incremented it, is strictly above the
    minimum spacing; and a call made while a peak is awaited, the only
    one that can move to awaiting a valley, never changes the count. *)
Theorem rep_count_increases_iff threshold min_samples window self v i :
  reachable threshold min_samples window self ->
  exists self' r,
    process_sample self v i = Some (self', r) /\
    (rep_count self' = rep_count self \/
     rep_count self' = (rep_count self + 1)%Z) /\
    (rep_count self' = (rep_count self + 1)%Z <->
     state self = WAITING_FOR_VALLEY /\
     exists peak v0,
       current_peak self = Some peak /\
       current_valley self = Some v0 /\
       let valley := tracked_valley v0 (centered self v) in
       valley + hysteresis < centered self v /\
       amplitude_threshold self < peak - valley /\
       (min_samples_between_reps self < samples_since_last_rep self + 1)%Z) /\
    (state self = WAITING_FOR_PEAK -> rep_count self' = rep_count self).
Proof.
  intros R. pose proof (reachable_trackers _ _ _ _ R) as T. unfold trackers_set in T.
  destruct (state self) eqn:S.
  - destruct (peak_call self v i S) as (self' & r & E & K).
    exists self', r.
    split; [exact E|]. split; [left; exact K|]. split; [|intros _; exact K].
    split.
    + intros K'. exfalso. lia.
    + intros (A & _). discriminate A.
  - destruct (T eq_refl) as [TP TV].
    destruct (current_peak self) as [p|] eqn:P; [|congruence].
    destruct (current_valley self) as [v0|] eqn:V; [|congruence].
    destruct (valley_call self v i p v0 S P V) as (self' & r & E & K).
    exists self', r. cbv zeta in K.
    set (valley := tracked_valley v0 (centered self v)) in *.
    split; [exact E|].
    destruct (Qltb (valley + hysteresis) (centered self v)) eqn:H1;
      [destruct (counts self (p - valley) (samples_since_last_rep self + 1)) eqn:H2|];
      simpl in K.
    + apply Qltb_lt in H1. unfold counts in H2.
      apply andb_true_iff in H2. destruct H2 as [H2 H3].
      apply Qltb_lt in H2. apply Z.ltb_lt in H3.
      split; [right; exact K|]. split; [|intros A; discriminate A].
      split; [intros _|intros _; exact K].
      split; [reflexivity|]. exists p, v0. cbv zeta. fold valley. auto.
    + split; [left; exact K|]. split; [|intros A; discriminate A].
      split; [intros K'; exfalso; lia|].
      intros (_ & p' & v' & Ep & Ev & A).
      inversion Ep; inversion Ev; subst p' v'. cbv zeta in A. fold valley in A.
      destruct A as (_ & A2 & A3).
      apply Qltb_lt in A2. apply Z.ltb_lt in A3.
      unfold counts in H2. rewrite A2, A3 in H2. discriminate H2.
    + split; [left; exact K|]. split; [|intros A; discriminate A].
      split; [intros K'; exfalso; lia|].
      intros (_ & p' & v' & Ep & Ev & A).
      inversion Ev; subst v'. cbv zeta in A. fold valley in A.
      destruct A as (A1 & _).
      apply Qltb_lt in A1. congruence.
Qed.

Lemma rep_count_increases_iff_witness :
  let self := state_after 21 20 50 (repeat 0 20 ++ [100; 0]) in
  exists self' r,
    process_sample self 10 22 = Some (self', r) /\
    rep_count self = 0%Z /\
    rep_count self' = 1%Z /\
    (rep_count self' = rep_count self \/
     rep_count self' = (rep_count self + 1)%Z) /\
    (rep_count self' = (rep_count self + 1)%Z <->
     state self = WAITING_FOR_VALLEY /\
     exists peak v0,
       current_peak self = Some peak /\
       current_valley self = Some v0 /\
       let valley := tracked_valley v0 (centered self 10) in
       valley + hysteresis < centered self 10 /\
       amplitude_threshold self < peak - valley /\
       (min_samples_between_reps self < samples_since_last_rep self + 1)%Z) /\
    (state self = WAITING_FOR_PEAK -> rep_count self' = rep_count self).
Proof.
  cbv zeta. set (S0 := state_after 21 20 50 (repeat 0 20 ++ [100; 0])).
  destruct (rep_count_increases_iff 21 20 50 S0 10 22
              (state_after_reachable 21 20 50 (repeat 0 20 ++ [100; 0])))
    as (self' & r & E & D & I & P).
  assert (Z0 : rep_count S0 = 0%Z) by (vm_compute; reflexivity).
  assert (U : rep_count self' = (rep_count S0 + 1)%Z).
  { apply I. split; [vm_compute; reflexivity|].
    eexists _, _. split; [vm_compute; reflexivity|].
    split; [vm_compute; reflexivity|].
    cbv zeta. split; [vm_compute; reflexivity|].
    split; vm_compute; reflexivity. }
  exists self', r. split; [exact E|]. split; [exact Z0|].
  split; [rewrite U, Z0; reflexivity|]. auto.
Defined.

(** The window a returning call leaves is the one lines 186-188 build. *)
Lemma process_sample_window self v i self' r :
  process_sample self v i = Some (self', r) ->
  recent_samples self' = push_window self v.
Proof.
  revert self' r. branches; intros self' r E; inversion E; subst; reflexivity.
Qed.

Lemma push_window_bounded self v :
  (0 <= baseline_window self)%Z ->
  (len (recent_samples self) <= baseline_window self)%Z ->
  (len (push_window self v) <= baseline_window self)%Z.
Proof.
  intros W B. unfold push_window.
  destruct (len (recent_samples self ++ [v]) >? baseline_window self)%Z eqn:G.
  - rewrite len_tl_app_one. exact B.
  - rewrite Z.gtb_ltb in G. apply Z.ltb_ge in G. exact G.
Qed.

Lemma reachable_window_bounded t m w self :
  (0 <= w)%Z -> reachable t m w self -> (len (recent_samples self) <= w)%Z.
Proof.
  intros W R. induction R as [|self v i self' r R IH E]; [exact W|].
  destruct (reachable_config _ _ _ _ R) as (_ & _ & C).
  rewrite (process_sample_window _ _ _ _ _ E). rewrite <- C in *.
  apply push_window_bounded; assumption.
Qed.

(** C9.  With a capacity [baseline_window >= 0], the window of every
    state the counter reaches holds at most [baseline_window] samples,
    and every call on such a state returns and leaves a window that
    holds at most [baseline_window] samples.  A call on a window below
    capacity appends the new sample and evicts nothing; a call on a
    window at capacity drops the head of the list with the new sample
    appended, which for a positive capacity is the oldest sample, the
    others keeping their order in front of the new one. *)
Theorem baseline_window_bounded threshold min_samples window self v i :
  (0 <= window)%Z ->
  reachable threshold min_samples window self ->
  (len (recent_samples self) <= window)%Z /\
  exists self' r,
    process_sample self v i = Some (self', r) /\
    (len (recent_samples self') <= window)%Z /\
    ((len (recent_samples self) < window)%Z ->
     recent_samples self' = recent_samples self ++ [v]) /\
    (len (recent_samples self) = window ->
     recent_samples self' = tl (recent_samples self ++ [v])) /\
    (len (recent_samples self) = window -> (0 < window)%Z ->
     exists oldest rest,
       recent_samples self = oldest :: rest /\
       recent_samples self' = rest ++ [v]).
Proof.
  intros W R. split; [eapply reachable_window_bounded; eauto|].
  destruct (process_sample_returns self v i (reachable_trackers _ _ _ _ R))
    as (self' & r & E).
  exists self', r. split; [exact E|].
  split; [eapply reachable_window_bounded; [exact W|econstructor; eauto]|].
  destruct (reachable_config _ _ _ _ R) as (_ & _ & C).
  rewrite (process_sample_window _ _ _ _ _ E). unfold push_window.
  rewrite len_app_one, C.
  split; [|split].
  - intros L. destruct (len (recent_samples self) + 1 >? window)%Z eqn:G;
      [|reflexivity].
    rewrite Z.gtb_ltb in G. apply Z.ltb_lt in G. lia.
  - intros L. destruct (len (recent_samples self) + 1 >? window)%Z eqn:G;
      [reflexivity|].
    rewrite Z.gtb_ltb in G. apply Z.ltb_ge in G. lia.
  - intros L P. destruct (len (recent_samples self) + 1 >? window)%Z eqn:G.
    + destruct (recent_samples self) as [|oldest rest]; [unfold len in L; simpl in L; lia|].
      exists oldest, rest. split; reflexivity.
    + rewrite Z.gtb_ltb in G. apply Z.ltb_ge in G. lia.
Qed.

Lemma baseline_window_bounded_witness :
  let self := state_after 21 20 2 [5; 6] in
  recent_samples self = [5; 6] /\
  (len (recent_samples self) <= 2)%Z /\
  exists self' r,
    process_sample self 7 2 = Some (self', r) /\
    recent_samples self' = [6; 7] /\
    (len (recent_samples self') <= 2)%Z /\
    ((len (recent_samples self) < 2)%Z ->
     recent_samples self' = recent_samples self ++ [7]) /\
    (len (recent_samples self) = 2%Z ->
     recent_samples self' = tl (recent_samples self ++ [7])) /\
    (len (recent_samples self) = 2%Z -> (0 < 2)%Z ->
     exists oldest rest,
       recent_samples self = oldest :: rest /\
       recent_samples self' = rest ++ [7]).
Proof.
  cbv zeta.
  destruct (baseline_window_bounded 21 20 2 (state_after 21 20 2 [5; 6]) 7 2)
    as (B & self' & r & E & B' & K1 & K2 & K3).
  - lia.
  - apply state_after_reachable.
  - split; [vm_compute; reflexivity|]. split; [exact B|].
    exists self', r. split; [exact E|].
    split; [rewrite K2 by (vm_compute; reflexivity); vm_compute; reflexivity|].
    auto.
Defined.

End RepCounterFacts.

(** ** The online projector *)

Module PCAFacts.
Import PCA.

Section WithLinalg.
Context `{Linalg}.

Lemma update_n self x : n (fst (update self x)) = (n self + 1)%Z.
Proof. unfold update. destruct (n self + 1 <? warmup self)%Z; reflexivity. Qed.

Lemma update_mean self x :
  mean (fst (update self x)) =
  Vec.add (mean self) (Vec.div (Vec.sub x (mean self)) (inject_Z (n self + 1))).
Proof. unfold update. destruct (n self + 1 <? warmup self)%Z; reflexivity. Qed.

Lemma mean_tracks_update self seen x :
  mean_tracks self seen -> mean_tracks (fst (update self x)) (seen ++ [x]).
Proof.
  unfold mean_tracks. intros [N M]. rewrite update_n, update_mean, len_app_one.
  split; [congruence|].
  assert (S : Vec.eq (Vec.sum (seen ++ [x])) (Vec.add (Vec.sum seen) x)).
  { clear. induction seen as [|y seen IH]; simpl.
    - destruct x as [[x1 x2] x3]. simpl. repeat split; ring.
    - destruct (Vec.sum (seen ++ [x])) as [[s1 s2] s3].
      destruct (Vec.sum seen) as [[t1 t2] t3].
      destruct x as [[x1 x2] x3], y as [[y1 y2] y3]. simpl in *.
      destruct IH as (I1 & I2 & I3). rewrite I1, I2, I3. repeat split; ring. }
  assert (NZ : ~ inject_Z (n self + 1) == 0).
  { rewrite N. unfold len, Qeq. simpl. lia. }
  rewrite inject_Z_plus in *.
  destruct (Vec.sum (seen ++ [x])) as [[s1 s2] s3].
  destruct (Vec.sum seen) as [[t1 t2] t3].
  destruct (mean self) as [[m1 m2] m3], x as [[x1 x2] x3]. simpl in *.
  destruct S as (S1 & S2 & S3), M as (M1 & M2 & M3).
  rewrite S1, S2, S3, <- M1, <- M2, <- M3.
  repeat split; field; exact NZ.
Qed.

Lemma mean_tracks_all self seen xs :
  mean_tracks self seen -> mean_tracks (update_all self xs) (seen ++ xs).
Proof.
  revert self seen. induction xs as [|x xs IH]; intros self seen T.
  - rewrite app_nil_r. exact T.
  - change (update_all self (x :: xs)) with (update_all (fst (update self x)) xs).
    replace (seen ++ x :: xs) with ((seen ++ [x]) ++ xs)
      by (rewrite <- app_assoc; reflexivity).
    apply IH, mean_tracks_update, T.
Qed.

(** C7.  After the samples [xs] have gone through [update], in order,
    on a fresh projector, [n] is their number and the running mean
    equals their arithmetic mean, sum over number, as rationals and in
    every component.  (No sample: both are the zero vector.) *)
Theorem running_mean_is_arithmetic_mean (warmup : Z) (xs : list Vec3) :
  n (update_all (init warmup) xs) = len xs /\
  Vec.eq (mean (update_all (init warmup) xs)) (Vec.arithmetic_mean xs).
Proof.
  assert (T : mean_tracks (update_all (init warmup) xs) ([] ++ xs)).
  { apply mean_tracks_all. split; [reflexivity|]. simpl. repeat split; ring. }
  simpl in T. destruct T as [N M]. split; [exact N|].
  unfold Vec.arithmetic_mean. rewrite N in M.
  destruct xs as [|x xs].
  - simpl. repeat split; reflexivity.
  - assert (NZ : ~ inject_Z (len (x :: xs)) == 0).
    { unfold len, Qeq. simpl. lia. }
    destruct (Vec.sum (x :: xs)) as [[s1 s2] s3].
    destruct (mean (update_all (init warmup) (x :: xs))) as [[m1 m2] m3].
    simpl in *. destruct M as (M1 & M2 & M3).
    rewrite <- M1, <- M2, <- M3. repeat split; field; exact NZ.
Qed.

(** C10.  Provided the square root of zero is zero, the first [update]
    of a fresh projector returns 0 for every sample and every warm-up
    setting.  The running mean becomes the sample itself, so the centred
    sample is the zero vector: below the warm-up count the result is its
    norm, and from the warm-up count on (a warm-up of 1 or less) it is
    its dot product with the eigenvector, zero as well. *)
Theorem first_update_returns_zero (warmup : Z) (x : Vec3) :
  (forall q, q == 0 -> np_sqrt q == 0) ->
  snd (update (init warmup) x) == 0.
Proof.
  intros sqrt_zero. unfold update, init. simpl.
  destruct x as [[x1 x2] x3].
  destruct (1 <? warmup)%Z; simpl.
  - unfold Vec.norm. apply sqrt_zero. simpl. field.
  - destruct (eigh_pc1 _) as [[p1 p2] p3]. simpl. field.
Qed.

End WithLinalg.

Lemma floor_sqrt_zero (q : Q) : q == 0 -> floor_sqrt q == 0.
Proof. intros E. unfold floor_sqrt. rewrite (Qfloor_comp _ _ E). reflexivity. Qed.

Lemma first_update_returns_zero_witness :
  snd (@update example_linalg (init 30) (3, -4, 12)) == 0.
Proof.
  apply (@first_update_returns_zero example_linalg 30 (3, -4, 12)).
  exact floor_sqrt_zero.
Defined.

End PCAFacts.

(** ** The causal smoother *)

Module SmootherFacts.
Import Smoother.

(** Cutting the input after [k] samples cuts the outputs after [k]
    values and changes none of them. *)
Lemma outputs_firstn (k : nat) (self : StreamingSmoother) (xs : list Q) :
  outputs self (firstn k xs) = firstn k (outputs self xs).
Proof.
  revert self xs. induction k as [|k IH]; intros self xs; [reflexivity|].
  destruct xs as [|x xs]; [reflexivity|].
  simpl. rewrite IH. reflexivity.
Qed.

(** C8.  The output of a fresh smoother at step [t] depends on the
    inputs of steps up to [t] only: two input sequences that agree up to
    and including index [k] give the same output at every index up to
    [k], and so does the input cut after index [k]. *)
Theorem smoother_is_causal (alpha : Q) (xs ys : list Q) (k : nat) :
  firstn (S k) xs = firstn (S k) ys ->
  forall t, (t <= k)%nat ->
    nth_error (outputs (init alpha) xs) t = nth_error (outputs (init alpha) ys) t /\
    nth_error (outputs (init alpha) (firstn (S k) xs)) t =
    nth_error (outputs (init alpha) xs) t.
Proof.
  intros A t L.
  assert (F : forall zs, nth_error (outputs (init alpha) (firstn (S k) zs)) t =
                         nth_error (outputs (init alpha) zs) t).
  { intros zs. rewrite outputs_firstn, nth_error_firstn.
    destruct (Nat.ltb_spec t (S k)); [reflexivity|lia]. }
  split; [|apply F].
  rewrite <- (F xs), <- (F ys), A. reflexivity.
Qed.

Lemma smoother_is_causal_witness :
  nth_error (outputs (init (15 # 100)) [4; 8; 100]) 1 =
  nth_error (outputs (init (15 # 100)) [4; 8; -7; 2]) 1 /\
  nth_error (outputs (init (15 # 100)) (firstn 2 [4; 8; 100])) 1 =
  nth_error (outputs (init (15 # 100)) [4; 8; 100]) 1.
Proof.
  apply (smoother_is_causal (15 # 100) [4; 8; 100] [4; 8; -7; 2] 1).
  - reflexivity.
  - lia.
Defined.

End SmootherFacts.

(** ** The session broker *)

Module ServerFacts.
Import Server.

Lemma same_session_refl a : same_session a a.
Proof. repeat split. Qed.

Lemma same_session_sym a b : same_session a b -> same_session b a.
Proof. intros (P & I & B). repeat split; congruence. Qed.

Lemma same_session_trans a b c :
  same_session a b -> same_session b c -> same_session a c.
Proof. intros (P & I & B) (P' & I' & B'). repeat split; congruence. Qed.

Lemma agree_refl {A} (r : option (A * RepServer * list broadcast_event)) :
  agree r r.
Proof.
  destruct r as [[[x a] o]|]; simpl; auto using same_session_refl.
Qed.

Lemma agree_trans {A} (r1 r2 r3 : option (A * RepServer * list broadcast_event)) :
  agree r1 r2 -> agree r2 r3 -> agree r1 r3.
Proof.
  destruct r1 as [[[x a] oa]|], r2 as [[[y b] ob]|], r3 as [[[z c] oc]|];
    simpl; try tauto.
  intros (E & S & M) (E' & S' & M').
  repeat split; try congruence; eapply same_session_trans; eauto.
Qed.

(** *** Broadcasts do not touch the session *)

Lemma ret_determined {A} (x : A) : session_determined (ret x).
Proof. intros a b S. simpl. auto. Qed.

Lemma bind_determined {A B} (m : Loop A) (k : A -> Loop B) :
  session_determined m ->
  (forall x, session_determined (k x)) ->
  session_determined (bind m k).
Proof.
  intros Hm Hk a b S. specialize (Hm a b S). unfold bind, agree in *.
  destruct (m a) as [[[x a1] o1]|], (m b) as [[[y b1] o2]|]; try tauto.
  destruct Hm as (-> & S1 & M1).
  specialize (Hk y a1 b1 S1). unfold agree in Hk.
  destruct (k y a1) as [[[u a2] p1]|], (k y b1) as [[[v b2] p2]|]; try tauto.
  destruct Hk as (-> & S2 & M2).
  rewrite !map_app, M1, M2. auto.
Qed.

Lemma broadcast_determined w msg : session_determined (_broadcast w msg).
Proof. intros a b S. simpl. auto. Qed.

Lemma when_determined c (m : Loop unit) :
  session_determined m -> session_determined (when c m).
Proof. destruct c; simpl; auto using ret_determined. Qed.

Create HintDb session.

#[local] Hint Resolve ret_determined bind_determined broadcast_determined
  when_determined : session.

Lemma auto_detect_determined w s : session_determined (auto_detect w s).
Proof.
  intros a b (P & I & B). unfold auto_detect, captured_rep_count.
  rewrite B. destruct (auto_detect_buffer b) as [buf|] eqn:E;
    [|simpl; repeat split; congruence].
  destruct (len (buf ++ [to_float s]) >=? AUTO_DETECT_SAMPLES)%Z;
    [|simpl; repeat split; auto].
  simpl pipeline. rewrite P.
  destruct (classifier w) as [c|]; [|simpl; repeat split; auto].
  destruct (len (buf ++ [to_float s]) >=? 10)%Z; [|simpl; repeat split; auto].
  destruct (c (buf ++ [to_float s])); simpl; repeat split; auto.
Qed.

Section WithLinalg.
Context `{Linalg}.

Lemma run_pipeline_determined w s : session_determined (run_pipeline w s).
Proof.
  intros a b (P & X & B). unfold run_pipeline. rewrite P, X.
  destruct (pipeline b) as [p|] eqn:E; [|simpl; repeat split; congruence].
  destruct (to_float s) as [[ax ay] az].
  destruct (Pipeline.process_sample p ax ay az (sample_idx b)) as [[p' result]|];
    [|exact I].
  match goal with
  | |- agree (?chain _) (?chain _) =>
      assert (D : session_determined chain) by auto 10 with session
  end.
  apply D. repeat split; auto.
Qed.

Lemma process_one_determined w s : session_determined (process_one w s).
Proof.
  unfold process_one. apply bind_determined.
  - apply auto_detect_determined.
  - intros _. apply run_pipeline_determined.
Qed.

Lemma process_many_determined steps : session_determined (process_many steps).
Proof.
  induction steps as [|[w s] steps IH]; simpl.
  - apply ret_determined.
  - apply bind_determined; [apply process_one_determined|intros _; exact IH].
Qed.

(** C5.  Whatever state the server is in, after any samples and
    requests, the request [{"action": "reset"}] leaves it with a
    pipeline built from scratch by the constructor, sample index 0 and
    no classification buffer.  That is the session a viewer gets by
    connecting to a newly constructed server, and from there on the two
    behave alike: over any further samples, in any worlds, both runs
    raise or both return, broadcasting the same messages in the same
    order and ending in the same session. *)
Theorem reset_request_gives_fresh_session (w w0 : World) (ws ws0 : nat)
    (self : RepServer) :
  let reset_request := Loaded (JObject [("action"%string, JString "reset")]) in
  let self' := after (on_message w ws self reset_request) in
  let fresh := after (on_connect w0 ws0 init) in
  pipeline self' = Some (Pipeline.init 21 20 50 30 (15 # 100)) /\
  sample_idx self' = 0%Z /\
  auto_detect_buffer self' = None /\
  same_session self' fresh /\
  forall steps, agree (process_many steps self') (process_many steps fresh).
Proof.
  cbv zeta.
  assert (E : after (on_message w ws self
                (Loaded (JObject [("action"%string, JString "reset")])))
              = set_buffer (_reset_pipeline self) None).
  { simpl. unfold send. destruct (connection_closed w ws); reflexivity. }
  assert (F : same_session (set_buffer (_reset_pipeline self) None)
                           (after (on_connect w0 ws0 init))).
  { unfold on_connect, send. destruct (connection_closed w0 ws0); repeat split. }
  rewrite E. repeat split; try apply F.
  intros steps. apply process_many_determined, F.
Qed.

Lemma pipeline_process_sample_returns (p : Pipeline.StreamingPipeline) ax ay az i :
  RepCounter.trackers_set (Pipeline.counter p) ->
  exists p' r, Pipeline.process_sample p ax ay az i = Some (p', r).
Proof.
  intros T. unfold Pipeline.process_sample.
  destruct (PCA.update (Pipeline.pca p) (ax, ay, az)) as [pca' v].
  destruct (Smoother.update (Pipeline.smoother p) v) as [sm' y].
  destruct (RepCounterFacts.process_sample_returns (Pipeline.counter p) y i T)
    as (c' & r & E).
  rewrite E. eauto.
Qed.

Lemma run_pipeline_returns w s self :
  (forall p, pipeline self = Some p -> RepCounter.trackers_set (Pipeline.counter p)) ->
  exists self' out, run_pipeline w s self = Some (tt, self', out).
Proof.
  intros T. unfold run_pipeline.
  destruct (pipeline self) as [p|]; [|unfold ret; eauto].
  destruct (to_float s) as [[ax ay] az].
  destruct (pipeline_process_sample_returns p ax ay az (sample_idx self)
              (T p eq_refl)) as (p' & r & E).
  rewrite E. unfold when, bind, _broadcast, ret.
  destruct (RepCounter.rep_detected r),
           ((sample_idx self + 1) mod 3 =? 0)%Z,
           ((sample_idx self + 1) mod 50 =? 0)%Z; simpl; eauto.
Qed.

(** C6, as amended.  Take a pass whose sample fills the open
    classification buffer.  The auto-detect stage broadcasts one
    message, [exercise_detected], with the count the pipeline's
    counter holds at that moment (0 without a pipeline): with a model
    loaded, the classifier's label, or [bicep_curl] and the error text
    when the classifier raises; with no model loaded, [bicep_curl]
    with no error text and no classifier invoked.  The stage closes
    the buffer and leaves pipeline, sample index and [running] as they
    were.  The pass then goes on with the sample as a pass with no
    buffer does: it raises only if that one does, and otherwise sends
    the same messages after the classification message and ends in the
    same session; and it does return whenever the counter's trackers
    are set, as they are in every state a counter reaches. *)
Theorem classification_keeps_detector_state (w : World) (s : sample)
    (self : RepServer) (buf : list Vec3) :
  auto_detect_buffer self = Some buf ->
  (AUTO_DETECT_SAMPLES <= len buf + 1)%Z ->
  let rep_count :=
    match pipeline self with
    | Some p => RepCounter.rep_count (Pipeline.counter p)
    | None => 0%Z
    end in
  let announced :=
    match classifier w with
    | Some classify_exercise =>
        match classify_exercise (buf ++ [to_float s]) with
        | inl pred => ExerciseDetected pred rep_count None
        | inr e => ExerciseDetected "bicep_curl" rep_count (Some e)
        end
    | None => ExerciseDetected "bicep_curl" rep_count None
    end in
  (exists self1 recipients,
     auto_detect w s self
       = Some (tt, self1, [{| sent := announced; delivered := recipients |}]) /\
     pipeline self1 = pipeline self /\
     sample_idx self1 = sample_idx self /\
     running self1 = running self /\
     auto_detect_buffer self1 = None) /\
  match process_one w s self, process_one w s (set_buffer self None) with
  | Some (_, after_pass, out), Some (_, after_plain, out_plain) =>
      map sent out = announced :: map sent out_plain /\
      same_session after_pass after_plain
  | None, None => True
  | _, _ => False
  end /\
  ((forall p, pipeline self = Some p ->
              RepCounter.trackers_set (Pipeline.counter p)) ->
   exists self' out, process_one w s self = Some (tt, self', out)).
Proof.
  intros B L rep_count announced.
  assert (G : (len (buf ++ [to_float s]) >=? AUTO_DETECT_SAMPLES)%Z = true).
  { rewrite len_app_one. apply Z.geb_le. exact L. }
  assert (G10 : (len (buf ++ [to_float s]) >=? 10)%Z = true).
  { apply Z.geb_le. apply Z.geb_le in G. unfold AUTO_DETECT_SAMPLES in G. lia. }
  set (alive := filter (fun ws => negb (connection_closed w ws)) (clients self)).
  set (self1 := set_clients (set_buffer self None) alive).
  assert (A : auto_detect w s self
              = Some (tt, self1, [{| sent := announced; delivered := alive |}])).
  { unfold auto_detect. rewrite B, G. subst announced rep_count.
    unfold captured_rep_count. cbn [pipeline set_buffer].
    destruct (classifier w) as [c|]; [|reflexivity].
    rewrite G10. destruct (c (buf ++ [to_float s])); reflexivity. }
  split; [exists self1, alive; repeat split; exact A|].
  assert (A0 : auto_detect w s (set_buffer self None)
               = Some (tt, set_buffer self None, [])) by reflexivity.
  unfold process_one, bind. rewrite A, A0.
  assert (D : agree (run_pipeline w s self1) (run_pipeline w s (set_buffer self None))).
  { apply run_pipeline_determined. repeat split. }
  split.
  - unfold agree in D.
    destruct (run_pipeline w s self1) as [[[u a] o]|],
             (run_pipeline w s (set_buffer self None)) as [[[u' b] o']|]; try tauto.
    destruct D as (_ & S & M). simpl. rewrite M. auto.
  - intros T.
    destruct (run_pipeline_returns w s self1 T) as (s2 & o2 & E2).
    rewrite E2. eauto.
Qed.

End WithLinalg.

Lemma classification_keeps_detector_state_witness :
  (exists self1 recipients,
     auto_detect failing_classifier (1, 2, 3)%Z counted_session
       = Some (tt, self1,
               [{| sent := ExerciseDetected "bicep_curl" 1
                             (Some "Data too short to classify"%string);
                   delivered := recipients |}]) /\
     pipeline self1 = pipeline counted_session /\
     sample_idx self1 = sample_idx counted_session /\
     running self1 = running counted_session /\
     auto_detect_buffer self1 = None) /\
  match @process_one example_linalg failing_classifier (1, 2, 3)%Z counted_session,
        @process_one example_linalg failing_classifier (1, 2, 3)%Z
                     (set_buffer counted_session None) with
  | Some (_, after_pass, out), Some (_, after_plain, out_plain) =>
      map sent out
      = ExerciseDetected "bicep_curl" 1 (Some "Data too short to classify"%string)
        :: map sent out_plain /\
      same_session after_pass after_plain
  | None, None => True
  | _, _ => False
  end /\
  ((forall p, pipeline counted_session = Some p ->
              RepCounter.trackers_set (Pipeline.counter p)) ->
   exists self' out,
     @process_one example_linalg failing_classifier (1, 2, 3)%Z counted_session
     = Some (tt, self', out)).
Proof.
  apply (@classification_keeps_detector_state example_linalg failing_classifier
           (1, 2, 3)%Z counted_session (repeat (0, 0, 0) 199)).
  - reflexivity.
  - vm_compute. discriminate.
Defined.

(** C6 as stated fails when no model is loaded: the pass that fills the
    buffer has no classifier to invoke, and the fallback label goes out
    with the count but with no error annotation. *)
Lemma no_model_sends_no_error_annotation :
  classifier no_model = None /\
  auto_detect no_model (1, 2, 3)%Z counted_session
  = Some (tt, set_buffer counted_session None,
          [{| sent := ExerciseDetected "bicep_curl" 1 None;
              delivered := [1; 2; 3]%nat |}]).
Proof. split; [reflexivity|vm_compute; reflexivity]. Qed.

(** The two ways a viewer's message can fail to be a request. *)
Lemma undecodable_message_ignored w ws self :
  on_message w ws self JSONDecodeError = Next self [].
Proof. reflexivity. Qed.

Lemma non_object_message_raises w ws self data :
  (forall items, data <> JObject items) ->
  on_message w ws self (Loaded data) = Raises AttributeError self.
Proof.
  intros N. destruct data; try reflexivity. exfalso. eapply N. reflexivity.
Qed.

(** C4, at a failing input.  A viewer connects and sends [[]], valid
    JSON that is not an object, and then a reset request.  [data.get]
    raises [AttributeError], which neither [except] catches: the handler
    ends, the client is discarded, the reset request stays unread and
    gets no [reset_ack].  Had the first message been undecodable text,
    the loop would have gone on and acknowledged the reset. *)
Theorem non_object_message_ends_handler :
  let reset_request := Loaded (JObject [("action"%string, JString "reset")]) in
  let h := _handle_client no_model 7 (start init)
             [Loaded (JArray []); reset_request] in
  let h' := _handle_client no_model 7 (start init)
              [JSONDecodeError; reset_request] in
  how h = Escaped AttributeError /\
  replies h = [Connected] /\
  unread h = [reset_request] /\
  clients (server h) = [] /\
  how h' = IteratorEnded /\
  replies h' = [Connected; ResetAck] /\
  unread h' = [].
Proof. cbv zeta. repeat split. Qed.

(** C3, at a failing input.  The reader thread schedules 1000 samples
    on a started server and the consumer loop takes none: the queue is
    full.  The callback for one more sample raises [QueueFull], inside
    no [try], and leaves the server as it was: the sample is lost. *)
Theorem full_queue_put_raises :
  let self := enqueue_all (start init) (repeat (0, 0, 0)%Z 1000) in
  option_map (fun q => (maxsize q, len (items q))) (sample_queue self)
    = Some (1000, 1000)%Z /\
  option_map full (sample_queue self) = Some true /\
  enqueue_callback self (1, 2, 3)%Z = (self, Some QueueFull).
Proof.
  cbv zeta.
  split; [vm_compute; reflexivity|].
  split; vm_compute; reflexivity.
Qed.

End ServerFacts.

(** * Further properties of the code *)

(** ** The repetition detector, continued *)

Module RepCounterMore.
Import RepCounter RepCounterFacts.

(** What one returning call does to the count, the debounce counter and
    the two lists of recorded repetitions. *)
Lemma process_sample_effect self v i self' r :
  process_sample self v i = Some (self', r) ->
  res_rep_count r = rep_count self' /\
  res_state r = state self' /\
  res_baseline r = baseline self' /\
  baseline self' = np_mean (recent_samples self') /\
  signal_history self' = signal_history self ++ [v] /\
  ((rep_detected r = false /\
    rep_count self' = rep_count self /\
    samples_since_last_rep self' = (samples_since_last_rep self + 1)%Z /\
    rep_amplitudes self' = rep_amplitudes self /\
    rep_detection_samples self' = rep_detection_samples self)
   \/
   (rep_detected r = true /\
    rep_count self' = (rep_count self + 1)%Z /\
    samples_since_last_rep self' = 0%Z /\
    (min_samples_between_reps self < samples_since_last_rep self + 1)%Z /\
    state self = WAITING_FOR_VALLEY /\ state self' = WAITING_FOR_PEAK /\
    exists p v0 idx,
      current_peak self = Some p /\ current_valley self = Some v0 /\
      amplitude_threshold self < p - tracked_valley v0 (centered self v) /\
      rep_amplitudes self' =
        rep_amplitudes self ++ [p - tracked_valley v0 (centered self v)] /\
      rep_detection_samples self' = rep_detection_samples self ++ [idx])).
Proof.
  unfold process_sample. fold (centered self v).
  destruct (state self) eqn:S.
  - destruct (current_peak self) as [p|];
      [destruct (Qltb p (centered self v))|];
      match goal with
      | |- context [if ?c then _ else _] => destruct c
      end;
      intros E; inversion E; subst; simpl; repeat split; left; repeat split.
  - destruct (current_valley self) as [v0|] eqn:V; [|discriminate].
    destruct (Qltb (tracked_valley v0 (centered self v) + hysteresis)
                   (centered self v)).
    + destruct (current_peak self) as [p|] eqn:P; [|discriminate].
      destruct (counts self (p - tracked_valley v0 (centered self v))
                       (samples_since_last_rep self + 1)) eqn:C.
      * unfold counts in C. apply andb_true_iff in C. destruct C as [C1 C2].
        apply Qltb_lt in C1. apply Z.ltb_lt in C2.
        intros E; inversion E; subst; simpl. repeat split. right.
        repeat split; auto. eexists p, v0, _. repeat split; auto.
      * intros E; inversion E; subst; simpl; repeat split; left; repeat split.
    + intros E; inversion E; subst; simpl; repeat split; left; repeat split.
Qed.

Lemma tracked_valley_le v0 c : tracked_valley v0 c <= v0.
Proof.
  unfold tracked_valley. destruct (Qltb c v0) eqn:L.
  - apply Qltb_lt in L. lra.
  - lra.
Qed.

(** While a valley is awaited, the tracked valley is more than the
    hysteresis margin below the tracked peak. *)
Lemma valley_gap_step self v i self' r :
  process_sample self v i = Some (self', r) ->
  (state self = WAITING_FOR_VALLEY ->
   exists p v0, current_peak self = Some p /\ current_valley self = Some v0 /\
                v0 + hysteresis < p) ->
  state self' = WAITING_FOR_VALLEY ->
  exists p v0, current_peak self' = Some p /\ current_valley self' = Some v0 /\
               v0 + hysteresis < p.
Proof.
  unfold process_sample. fold (centered self v). unfold hysteresis.
  destruct (state self) eqn:S.
  - intros E _.
    destruct (current_peak self) as [p|];
      [destruct (Qltb p (centered self v))|];
      match type of E with
      | context [if ?c then _ else _] => destruct c eqn:T
      end;
      inversion E; subst; simpl; intros S'; try discriminate S';
      apply Qltb_lt in T; eexists _, _; repeat split; lra.
  - intros E I. destruct (I eq_refl) as (p & v0 & P & V & G).
    rewrite V, P in E.
    pose proof (tracked_valley_le v0 (centered self v)) as L.
    destruct (Qltb (tracked_valley v0 (centered self v) + 3) (centered self v)).
    + destruct (counts self _ _); inversion E; subst; simpl;
        intros S'; discriminate S'.
    + inversion E; subst; simpl. intros _.
      exists p, (tracked_valley v0 (centered self v)). repeat split; auto. lra.
Qed.

Lemma reachable_valley_gap t m w self :
  reachable t m w self ->
  state self = WAITING_FOR_VALLEY ->
  exists p v0, current_peak self = Some p /\ current_valley self = Some v0 /\
               v0 + hysteresis < p.
Proof.
  induction 1 as [|self v i self' r R IH E].
  - intros S. discriminate S.
  - eapply valley_gap_step; eauto.
Qed.

(** X1.  Never a [TypeError].  From any state the counter can reach, a
    whole run of samples goes through: [process_all] returns, with one
    result per sample, and ends in a state the counter can reach. *)
Theorem process_all_returns t m w self idx signals :
  reachable t m w self ->
  exists self' rs,
    process_all self idx signals = Some (self', rs) /\
    List.length rs = List.length signals /\
    reachable t m w self'.
Proof. exact (process_all_reachable t m w self idx signals). Qed.

Lemma process_all_returns_witness :
  exists self' rs,
    process_all (init 21 20 50) 0 [1; 9; 2] = Some (self', rs) /\
    List.length rs = List.length [1; 9; 2] /\
    reachable 21 20 50 self'.
Proof.
  apply (process_all_returns 21 20 50 (init 21 20 50) 0 [1; 9; 2]).
  constructor.
Defined.

(** X2.  The hysteresis gap.  In every reachable state that awaits a
    valley both trackers are set and the tracked valley lies more than
    the margin 3 below the tracked peak. *)
Theorem valley_more_than_margin_below_peak t m w self :
  reachable t m w self ->
  state self = WAITING_FOR_VALLEY ->
  exists p v0,
    current_peak self = Some p /\ current_valley self = Some v0 /\ v0 + 3 < p.
Proof. exact (reachable_valley_gap t m w self). Qed.


Lemma valley_more_than_margin_below_peak_witness :
  exists p v0,
    current_peak (state_after 21 20 50 [10; 0]) = Some p /\
    current_valley (state_after 21 20 50 [10; 0]) = Some v0 /\ v0 + 3 < p.
Proof.
  apply (valley_more_than_margin_below_peak 21 20 50 (state_after 21 20 50 [10; 0])).
  - apply state_after_reachable.
  - vm_compute. reflexivity.
Defined.


(** X4.  Debounce.  A run of calls that starts with the debounce counter
    at [d] and is no longer than [min_samples_between_reps - d] counts
    nothing: the count is unchanged, the debounce counter has gone up
    by the number of calls, and no result reports a repetition.  (A
    freshly built or reset counter, and one that has just counted, have
    [d = 0].) *)
Theorem no_count_within_min_spacing self idx signals self' rs :
  process_all self idx signals = Some (self', rs) ->
  (samples_since_last_rep self + len signals
   <= min_samples_between_reps self)%Z ->
  rep_count self' = rep_count self /\
  samples_since_last_rep self' = (samples_since_last_rep self + len signals)%Z /\
  Forall (fun r => rep_detected r = false) rs.
Proof.
  revert self idx self' rs.
  induction signals as [|x rest IH]; intros self idx self' rs E B.
  - inversion E; subst. unfold len. simpl. repeat split; [lia|constructor].
  - simpl in E. destruct (process_sample self x idx) as [[s1 r]|] eqn:E1;
      [|discriminate].
    destruct (process_all s1 (idx + 1) rest) as [[s2 rs']|] eqn:E2; [|discriminate].
    inversion E; subst. clear E.
    assert (Lc : len (x :: rest) = (len rest + 1)%Z) by (unfold len; simpl List.length; lia).
    rewrite Lc in *.
    assert (L0 : (0 <= len rest)%Z) by (unfold len; lia).
    destruct (process_sample_config _ _ _ _ _ E1) as (_ & M & _).
    destruct (process_sample_effect _ _ _ _ _ E1) as (_ & _ & _ & _ & _ & [K|K]).
    + destruct K as (D & K1 & K2 & _).
      destruct (IH s1 (idx + 1)%Z self' rs' E2) as (I1 & I2 & I3);
        [rewrite K2, M; lia|].
      repeat split; [congruence|lia|constructor; assumption].
    + destruct K as (_ & _ & _ & K & _). exfalso. lia.
Qed.

Lemma no_count_within_min_spacing_witness :
  rep_count (state_after 21 20 50 (repeat 0 20))
    = rep_count (init 21 20 50) /\
  samples_since_last_rep (state_after 21 20 50 (repeat 0 20))
    = (samples_since_last_rep (init 21 20 50) + len (repeat 0 20))%Z /\
  Forall (fun r => rep_detected r = false)
         (match process_all (init 21 20 50) 0 (repeat 0 20) with
          | Some (_, rs) => rs
          | None => []
          end).
Proof.
  destruct (process_all (init 21 20 50) 0 (repeat 0 20)) as [[s rs]|] eqn:E;
    [|vm_compute in E; discriminate E].
  unfold state_after. rewrite E.
  apply (no_count_within_min_spacing (init 21 20 50) 0 (repeat 0 20) s rs E).
  vm_compute. discriminate.
Defined.

(** X5.  Counting.  Over any run of calls the count goes up by the number
    of results that report a repetition, and each result carries the
    count as it stands after its call: the counts reported never
    decrease and end at the counter's own. *)
Theorem count_is_number_of_detections self idx signals self' rs :
  process_all self idx signals = Some (self', rs) ->
  rep_count self' = (rep_count self + len (detections rs))%Z /\
  (forall k r, nth_error rs k = Some r ->
     res_rep_count r = (rep_count self + len (detections (firstn (S k) rs)))%Z).
Proof.
  revert self idx self' rs.
  induction signals as [|x rest IH]; intros self idx self' rs E.
  - inversion E; subst. unfold len. simpl. split; [lia|].
    intros [|k] r N; discriminate N.
  - simpl in E. destruct (process_sample self x idx) as [[s1 r1]|] eqn:E1;
      [|discriminate].
    destruct (process_all s1 (idx + 1) rest) as [[s2 rs']|] eqn:E2; [|discriminate].
    inversion E; subst. clear E.
    destruct (IH _ _ _ _ E2) as (I1 & I2).
    destruct (process_sample_effect _ _ _ _ _ E1) as (C & _ & _ & _ & _ & K).
    assert (D : rep_count s1 = (rep_count self + len (detections [r1]))%Z).
    { destruct K as [(D & K1 & _)|(D & K1 & _)]; unfold detections, len;
        cbn [filter]; rewrite D; cbn [List.length]; lia. }
    assert (A : forall l, len (detections (r1 :: l))
                          = (len (detections [r1]) + len (detections l))%Z).
    { intros l. unfold detections, len. cbn [filter].
      destruct (rep_detected r1); cbn [List.length]; lia. }
    split.
    + rewrite A. lia.
    + intros [|k] r N.
      * simpl in N. inversion N; subst r. rewrite C. simpl firstn. exact D.
      * simpl in N. rewrite (I2 k r N).
        change (firstn (S (S k)) (r1 :: rs')) with (r1 :: firstn (S k) rs').
        rewrite A. lia.
Qed.

Lemma count_is_number_of_detections_witness :
  exists self' rs,
    process_all (init 21 20 50) 0 (repeat 0 20 ++ [100; 0; 10]) = Some (self', rs) /\
    rep_count self' = (rep_count (init 21 20 50) + len (detections rs))%Z /\
    (forall k r, nth_error rs k = Some r ->
       res_rep_count r
       = (rep_count (init 21 20 50) + len (detections (firstn (S k) rs)))%Z).
Proof.
  destruct (process_all (init 21 20 50) 0 (repeat 0 20 ++ [100; 0; 10]))
    as [[s rs]|] eqn:E; [|vm_compute in E; discriminate E].
  exists s, rs. split; [reflexivity|].
  exact (count_is_number_of_detections (init 21 20 50) 0
           (repeat 0 20 ++ [100; 0; 10]) s rs E).
Defined.

(** X6.  Reset.  Resetting a counter in any state it can reach gives the
    counter the constructor builds from the same three settings. *)
Theorem reset_is_fresh t m w self :
  reachable t m w self -> reset self = init t m w.
Proof.
  intros R. destruct (reachable_config _ _ _ _ R) as (T & M & W).
  unfold reset. rewrite T, M, W. reflexivity.
Qed.

Lemma reset_is_fresh_witness :
  reset (state_after 21 20 50 [10; 0; 7]) = init 21 20 50.
Proof.
  apply (reset_is_fresh 21 20 50). apply state_after_reachable.
Defined.

Lemma tl_skipn {A} (k : nat) (l : list A) : tl (skipn k l) = skipn (S k) l.
Proof.
  revert l. induction k as [|k IH]; intros [|x l]; try reflexivity.
  exact (IH l).
Qed.

Lemma skipn_snoc {A} (k : nat) (l : list A) (x : A) :
  (k <= List.length l)%nat -> skipn k (l ++ [x]) = skipn k l ++ [x].
Proof.
  intros L. rewrite skipn_app.
  replace (k - List.length l)%nat with 0%nat by lia. reflexivity.
Qed.

(** X7.  The baseline window is the recent history.  With a capacity
    [baseline_window >= 0], in every reachable state the window holds
    the last [baseline_window] samples the counter was given, oldest
    first (all of them while fewer have come), and the baseline is its
    mean once a sample has come. *)
Theorem window_is_recent_history t m w self :
  (0 <= w)%Z ->
  reachable t m w self ->
  recent_samples self
    = skipn (List.length (signal_history self) - Z.to_nat w) (signal_history self) /\
  (signal_history self <> [] -> baseline self = np_mean (recent_samples self)).
Proof.
  intros W R. induction R as [|self v i self' r R (IH & _) E].
  - split; [reflexivity|]. intros N. exfalso. apply N. reflexivity.
  - destruct (reachable_config _ _ _ _ R) as (_ & _ & C).
    destruct (process_sample_effect _ _ _ _ _ E) as (_ & _ & _ & B & H & _).
    split; [|intros _; exact B].
    rewrite (process_sample_window _ _ _ _ _ E), H. unfold push_window.
    rewrite len_app_one, C, IH.
    set (h := signal_history self). set (n := List.length h).
    rewrite length_app. simpl List.length. fold n.
    assert (Ls : len (skipn (n - Z.to_nat w) h) = Z.of_nat (n - (n - Z.to_nat w))).
    { unfold len. rewrite length_skipn. reflexivity. }
    rewrite Ls.
    destruct (Z.of_nat (n - (n - Z.to_nat w)) + 1 >? w)%Z eqn:G.
    + rewrite Z.gtb_ltb in G. apply Z.ltb_lt in G.
      assert (Z.to_nat w <= n)%nat by lia.
      destruct (Nat.eq_dec (Z.to_nat w) 0) as [Z0|NZ].
      * rewrite Z0, Nat.sub_0_r. subst n.
        replace (List.length h + 1 - 0)%nat with (List.length (h ++ [v]))
          by (rewrite length_app; simpl; lia).
        rewrite !skipn_all. reflexivity.
      * replace (n + 1 - Z.to_nat w)%nat with (S (n - Z.to_nat w)) by lia.
        rewrite <- tl_skipn. rewrite skipn_snoc by lia. reflexivity.
    + rewrite Z.gtb_ltb in G. apply Z.ltb_ge in G.
      replace (n - Z.to_nat w)%nat with 0%nat by lia.
      replace (n + 1 - Z.to_nat w)%nat with 0%nat by lia. reflexivity.
Qed.

Lemma window_is_recent_history_witness :
  recent_samples (state_after 21 20 2 [5; 6; 7])
    = skipn (List.length (signal_history (state_after 21 20 2 [5; 6; 7])) - Z.to_nat 2)
            (signal_history (state_after 21 20 2 [5; 6; 7])) /\
  (signal_history (state_after 21 20 2 [5; 6; 7]) <> [] ->
   baseline (state_after 21 20 2 [5; 6; 7])
     = np_mean (recent_samples (state_after 21 20 2 [5; 6; 7]))).
Proof.
  apply (window_is_recent_history 21 20 2).
  - lia.
  - apply state_after_reachable.
Defined.

End RepCounterMore.

(** ** The causal smoother, continued *)

Module SmootherMore.
Import Smoother.

Lemma blend_within (a lo hi x prev : Q) :
  0 <= a -> a <= 1 -> lo <= x <= hi -> lo <= prev <= hi ->
  lo <= a * x + (1 - a) * prev <= hi.
Proof.
  intros A0 A1 [X0 X1] [P0 P1].
  assert (B1 : 0 <= a * (x - lo)) by (apply Qmult_le_0_compat; lra).
  assert (B2 : 0 <= (1 - a) * (prev - lo)) by (apply Qmult_le_0_compat; lra).
  assert (B3 : 0 <= a * (hi - x)) by (apply Qmult_le_0_compat; lra).
  assert (B4 : 0 <= (1 - a) * (hi - prev)) by (apply Qmult_le_0_compat; lra).
  split; lra.
Qed.

Lemma outputs_within self lo hi xs :
  0 <= alpha self <= 1 ->
  match value self with Some prev => lo <= prev <= hi | None => True end ->
  Forall (fun x => lo <= x <= hi) xs ->
  Forall (fun y => lo <= y <= hi) (outputs self xs).
Proof.
  intros A. revert self A. induction xs as [|x xs IH]; intros self A V F;
    [constructor|].
  inversion F as [|? ? Fx Fxs]; subst. simpl.
  assert (Y : lo <= snd (update self x) <= hi).
  { unfold update. simpl. destruct (value self) as [prev|]; [|exact Fx].
    apply blend_within; tauto. }
  constructor; [exact Y|].
  apply IH; [exact A|exact Y|exact Fxs].
Qed.

(** X8.  The smoother stays within its inputs.  Over exact rationals
    (floating-point rounding can leave the interval slightly), with a
    smoothing factor between 0 and 1, if every input lies in an
    interval then so does every output of a fresh smoother; in
    particular a constant input gives that constant at every step. *)
Theorem outputs_stay_within_inputs (a lo hi : Q) (xs : list Q) :
  0 <= a <= 1 ->
  Forall (fun x => lo <= x <= hi) xs ->
  Forall (fun y => lo <= y <= hi) (outputs (init a) xs).
Proof.
  intros A F. apply outputs_within; [exact A|exact Logic.I|exact F].
Qed.

Lemma outputs_stay_within_inputs_witness :
  Forall (fun y => -1 <= y <= 9) (outputs (init (15 # 100)) [4; 9; -1; 2]).
Proof.
  apply (outputs_stay_within_inputs (15 # 100) (-1) 9 [4; 9; -1; 2]).
  - split; [vm_compute; discriminate|vm_compute; discriminate].
  - repeat constructor; vm_compute; discriminate.
Defined.

End SmootherMore.

(** ** The online projector, continued *)

Module WelfordFacts.
Import PCA Welford.

Lemma coord_add i a b : coord i (Vec.add a b) = coord i a + coord i b.
Proof. destruct a as [[? ?] ?], b as [[? ?] ?], i; reflexivity. Qed.

Lemma coord_sub i a b : coord i (Vec.sub a b) = coord i a - coord i b.
Proof. destruct a as [[? ?] ?], b as [[? ?] ?], i; reflexivity. Qed.

Lemma coord_div i a k : coord i (Vec.div a k) = coord i a / k.
Proof. destruct a as [[? ?] ?], i; reflexivity. Qed.

Lemma entry_madd i j A B : entry i j (Vec.madd A B) = entry i j A + entry i j B.
Proof.
  destruct A as [[[[? ?] ?] [[? ?] ?]] [[? ?] ?]],
           B as [[[[? ?] ?] [[? ?] ?]] [[? ?] ?]], i, j; reflexivity.
Qed.

Lemma entry_outer i j a b : entry i j (Vec.outer a b) = coord i a * coord j b.
Proof. destruct a as [[? ?] ?], b as [[? ?] ?], i, j; reflexivity. Qed.

Lemma entry_scatter i j m xs :
  entry i j (scatter m xs)
  = cross (coord i) (coord j) (coord i m) (coord j m) xs.
Proof.
  induction xs as [|x xs IH]; simpl.
  - destruct i, j; reflexivity.
  - rewrite entry_madd, entry_outer, !coord_sub, IH. reflexivity.
Qed.

Lemma csum_snoc f xs x : csum f (xs ++ [x]) == csum f xs + f x.
Proof. induction xs as [|y xs IH]; simpl; [ring|rewrite IH; ring]. Qed.

Lemma cross_snoc f g a b xs x :
  cross f g a b (xs ++ [x]) == cross f g a b xs + (f x - a) * (g x - b).
Proof. induction xs as [|y xs IH]; simpl; [ring|rewrite IH; ring]. Qed.

Lemma inject_len_cons {A} (x : A) (xs : list A) :
  inject_Z (len (x :: xs)) == inject_Z (len xs) + 1.
Proof.
  replace (len (x :: xs)) with (len xs + 1)%Z
    by (unfold len; simpl List.length; lia).
  rewrite inject_Z_plus. reflexivity.
Qed.

(** Moving the centre of a cross sum. *)
Lemma cross_shift f g a b a' b' xs :
  cross f g a' b' xs ==
  cross f g a b xs
  + (a - a') * (csum g xs - inject_Z (len xs) * b)
  + (b - b') * (csum f xs - inject_Z (len xs) * a)
  + inject_Z (len xs) * (a - a') * (b - b').
Proof.
  induction xs as [|x xs IH].
  - simpl. unfold len. simpl. ring.
  - cbn [cross csum]. rewrite IH, inject_len_cons. ring.
Qed.

Lemma cross_sym f g a b xs : cross f g a b xs == cross g f b a xs.
Proof. induction xs as [|x xs IH]; simpl; [reflexivity|rewrite IH; ring]. Qed.

Lemma square_nonneg (d : Q) : 0 <= d * d.
Proof.
  destruct (Qlt_le_dec d 0) as [L|L].
  - setoid_replace (d * d) with ((- d) * (- d)) by ring.
    apply Qmult_le_0_compat; lra.
  - apply Qmult_le_0_compat; exact L.
Qed.

Lemma squares_nonneg v m xs : 0 <= squares v m xs.
Proof.
  induction xs as [|x xs IH]; simpl; [lra|].
  pose proof (square_nonneg (Vec.dot v (Vec.sub x m))). lra.
Qed.

Lemma quad_expand M v :
  quad M v ==
  coord Ax v * (entry Ax Ax M * coord Ax v + entry Ax Ay M * coord Ay v
                + entry Ax Az M * coord Az v)
  + coord Ay v * (entry Ay Ax M * coord Ax v + entry Ay Ay M * coord Ay v
                  + entry Ay Az M * coord Az v)
  + coord Az v * (entry Az Ax M * coord Ax v + entry Az Ay M * coord Ay v
                  + entry Az Az M * coord Az v).
Proof.
  destruct M as [[[[? ?] ?] [[? ?] ?]] [[? ?] ?]], v as [[? ?] ?].
  unfold quad, mat_vec, Vec.dot, entry, coord. ring.
Qed.

Lemma squares_expand v m xs :
  squares v m xs ==
  coord Ax v * (cross (coord Ax) (coord Ax) (coord Ax m) (coord Ax m) xs * coord Ax v
                + cross (coord Ax) (coord Ay) (coord Ax m) (coord Ay m) xs * coord Ay v
                + cross (coord Ax) (coord Az) (coord Ax m) (coord Az m) xs * coord Az v)
  + coord Ay v * (cross (coord Ay) (coord Ax) (coord Ay m) (coord Ax m) xs * coord Ax v
                  + cross (coord Ay) (coord Ay) (coord Ay m) (coord Ay m) xs * coord Ay v
                  + cross (coord Ay) (coord Az) (coord Ay m) (coord Az m) xs * coord Az v)
  + coord Az v * (cross (coord Az) (coord Ax) (coord Az m) (coord Ax m) xs * coord Ax v
                  + cross (coord Az) (coord Ay) (coord Az m) (coord Ay m) xs * coord Ay v
                  + cross (coord Az) (coord Az) (coord Az m) (coord Az m) xs * coord Az v).
Proof.
  induction xs as [|x xs IH].
  - simpl. ring.
  - cbn [squares cross]. rewrite IH.
    destruct v as [[v1 v2] v3], m as [[m1 m2] m3], x as [[x1 x2] x3].
    unfold Vec.dot, Vec.sub, coord. ring.
Qed.

Section WithLinalg.
Context `{Linalg}.

Lemma update_C self x :
  C (fst (update self x)) =
  Vec.madd (C self)
    (Vec.outer (Vec.sub x (mean self))
               (Vec.sub x (mean (fst (update self x))))).
Proof. unfold update. destruct (n self + 1 <? warmup self)%Z; reflexivity. Qed.

Lemma tracks_update self seen x :
  tracks self seen -> tracks (fst (update self x)) (seen ++ [x]).
Proof.
  intros (N & M & S). unfold tracks.
  rewrite update_C, PCAFacts.update_n, PCAFacts.update_mean, len_app_one.
  assert (NZ : ~ inject_Z (len seen) + 1 == 0).
  { unfold len, Qeq. simpl. lia. }
  rewrite N in *. rewrite inject_Z_plus.
  split; [reflexivity|]. split.
  - intros i. rewrite csum_snoc, <- (M i), coord_add, coord_div, coord_sub.
    field. exact NZ.
  - intros i j.
    rewrite entry_madd, entry_outer, cross_snoc, !coord_sub, !coord_add,
            !coord_div, !coord_sub.
    rewrite (cross_shift (coord i) (coord j) (coord i (mean self))
                         (coord j (mean self))).
    rewrite <- (M i), <- (M j), <- (S i j).
    field. exact NZ.
Qed.

Lemma tracks_all self seen xs :
  tracks self seen -> tracks (update_all self xs) (seen ++ xs).
Proof.
  revert self seen. induction xs as [|x xs IH]; intros self seen T.
  - rewrite app_nil_r. exact T.
  - change (update_all self (x :: xs)) with (update_all (fst (update self x)) xs).
    replace (seen ++ x :: xs) with ((seen ++ [x]) ++ xs)
      by (rewrite <- app_assoc; reflexivity).
    apply IH, tracks_update, T.
Qed.

Lemma tracks_fresh warmup xs : tracks (update_all (init warmup) xs) xs.
Proof.
  apply (tracks_all (init warmup) [] xs).
  split; [reflexivity|]. split.
  - intros i. destruct i; simpl; ring.
  - intros i j. destruct i, j; reflexivity.
Qed.

(** X9.  The covariance accumulator.  After the samples [xs] have gone
    through [update] on a fresh projector, [C] is, entry by entry and
    as rationals, the scatter matrix of [xs] about the running mean:
    the sum of [(x - mean)(x - mean)^T] over the samples. *)
Theorem accumulator_is_scatter_matrix (warmup : Z) (xs : list Vec3) :
  meq (C (update_all (init warmup) xs))
      (scatter (mean (update_all (init warmup) xs)) xs).
Proof.
  intros i j. rewrite entry_scatter.
  destruct (tracks_fresh warmup xs) as (_ & _ & S). apply S.
Qed.

(** X10.  A valid covariance.  Over exact rationals (floating-point
    rounding can break both slightly), after any samples on a fresh
    projector the accumulator [C] is symmetric, and positive
    semi-definite: its quadratic form [v^T C v] is the sum of the
    squared projections of the centred samples on [v], so it is never
    negative, for any [v]. *)
Theorem accumulator_is_symmetric_psd (warmup : Z) (xs : list Vec3) :
  (forall i j, entry i j (C (update_all (init warmup) xs))
               == entry j i (C (update_all (init warmup) xs))) /\
  (forall v, quad (C (update_all (init warmup) xs)) v
             == squares v (mean (update_all (init warmup) xs)) xs) /\
  (forall v, 0 <= quad (C (update_all (init warmup) xs)) v).
Proof.
  destruct (tracks_fresh warmup xs) as (_ & _ & S).
  assert (Q : forall v, quad (C (update_all (init warmup) xs)) v
                        == squares v (mean (update_all (init warmup) xs)) xs).
  { intros v. rewrite quad_expand, squares_expand, !S. reflexivity. }
  split; [|split].
  - intros i j. rewrite (S i j), (S j i). apply cross_sym.
  - exact Q.
  - intros v. rewrite Q. apply squares_nonneg.
Qed.

(** X11.  Sign continuity.  Once the warm-up count is reached, an update
    of a projector that holds a previous eigenvector keeps the
    eigenvector [eigh] returns or its negation, whichever does not
    point against the previous one: the dot product of the retained
    vector with the previous one is never negative. *)
Theorem retained_eigenvector_keeps_sign self x prev :
  prev_pc1 self = Some prev ->
  (warmup self <= n self + 1)%Z ->
  exists pc1,
    prev_pc1 (fst (update self x)) = Some pc1 /\
    0 <= Vec.dot pc1 prev /\
    snd (update self x) = Vec.dot (Vec.sub x (mean (fst (update self x)))) pc1 /\
    let e := eigh_pc1 (Vec.mdiv (C (fst (update self x))) (inject_Z (n self + 1))) in
    (pc1 = e \/ pc1 = Vec.neg e).
Proof.
  intros P W. unfold update. rewrite P.
  destruct (n self + 1 <? warmup self)%Z eqn:L; [apply Z.ltb_lt in L; lia|].
  cbn [fst snd prev_pc1 mean C].
  match goal with
  | |- context [Qltb (Vec.dot ?e prev) 0] =>
      destruct (Qltb (Vec.dot e prev) 0) eqn:G; [exists (Vec.neg e)|exists e]
  end; (split; [reflexivity|]); (split; [|split; [reflexivity|cbv zeta; auto]]).
  - apply Qltb_lt in G.
    match goal with
    | |- 0 <= Vec.dot (Vec.neg ?e) prev =>
        assert (E : Vec.dot (Vec.neg e) prev == - Vec.dot e prev)
          by (destruct e as [[? ?] ?], prev as [[? ?] ?]; unfold Vec.dot, Vec.neg; ring)
    end.
    rewrite E. lra.
  - apply Qltb_ge in G. exact G.
Qed.

End WithLinalg.

Lemma retained_eigenvector_keeps_sign_witness :
  exists pc1,
    prev_pc1 (fst (@update example_linalg
                     (@update_all example_linalg (init 2) [(1, 2, 3); (4, 4, 4)])
                     (0, 1, 5))) = Some pc1 /\
    0 <= Vec.dot pc1 (1, 0, 0) /\
    snd (@update example_linalg
           (@update_all example_linalg (init 2) [(1, 2, 3); (4, 4, 4)]) (0, 1, 5))
    = Vec.dot
        (Vec.sub (0, 1, 5)
           (mean (fst (@update example_linalg
                         (@update_all example_linalg (init 2) [(1, 2, 3); (4, 4, 4)])
                         (0, 1, 5)))))
        pc1 /\
    let e := @eigh_pc1 example_linalg
               (Vec.mdiv
                  (C (fst (@update example_linalg
                             (@update_all example_linalg (init 2)
                                [(1, 2, 3); (4, 4, 4)])
                             (0, 1, 5))))
                  (inject_Z
                     (n (@update_all example_linalg (init 2) [(1, 2, 3); (4, 4, 4)])
                      + 1))) in
    (pc1 = e \/ pc1 = Vec.neg e).
Proof.
  apply (@retained_eigenvector_keeps_sign example_linalg
           (@update_all example_linalg (init 2) [(1, 2, 3); (4, 4, 4)])
           (0, 1, 5) (1, 0, 0)).
  - reflexivity.
  - vm_compute. discriminate.
Defined.

End WelfordFacts.

(** ** The pipeline *)

Module PipelineFacts.
Import Pipeline.

Section WithLinalg.
Context `{Linalg}.

(** A run of the pipeline is its three stages run one after the other
    on the whole stream. *)
Lemma simulate_from_stages t m w (p : StreamingPipeline) (i : Z)
    (raw_data : list Vec3) :
  RepCounter.reachable t m w (counter p) ->
  exists p' rs pc1 smooth,
    simulate_from p i raw_data = Some (p', rs) /\
    List.length rs = List.length raw_data /\
    raw_history p' = raw_history p ++ raw_data /\
    pca p' = PCA.update_all (pca p) raw_data /\
    pc1_raw_history p' = pc1_raw_history p ++ pc1 /\
    pc1_smooth_history p' = pc1_smooth_history p ++ smooth /\
    List.length pc1 = List.length raw_data /\
    smooth = Smoother.outputs (smoother p) pc1 /\
    RepCounter.process_all (counter p) i smooth = Some (counter p', rs) /\
    RepCounter.reachable t m w (counter p').
Proof.
  revert p i. induction raw_data as [|[[ax ay] az] rest IH]; intros p i R.
  - exists p, [], [], []. simpl. rewrite !app_nil_r. repeat split; auto.
  - cbn [simulate_from]. unfold process_sample.
    destruct (PCA.update (pca p) (ax, ay, az)) as [pca' v] eqn:EP.
    destruct (Smoother.update (smoother p) v) as [sm' y] eqn:ES.
    destruct (RepCounterFacts.process_sample_returns (counter p) y i
                (RepCounterFacts.reachable_trackers _ _ _ _ R)) as (c' & r & EC).
    cbv beta iota zeta. rewrite EC.
    match goal with
    | |- context [simulate_from ?p1 _ rest] =>
        destruct (IH p1 (i + 1)%Z (RepCounter.reach_step _ _ _ _ _ _ _ _ R EC))
          as (p' & rs & pc1 & smooth & E & H0 & H1 & H2 & H3 & H4 & H5 & H6 & H7 & H8)
    end.
    rewrite E. exists p', (r :: rs), (v :: pc1), (y :: smooth).
    cbn [raw_history pca pc1_raw_history pc1_smooth_history smoother
                   counter] in *.
    rewrite <- app_assoc in H1, H3, H4.
    repeat split; auto.
    + cbn [List.length]. rewrite H0. reflexivity.
    + rewrite H2. unfold PCA.update_all. cbn [fold_left]. rewrite EP. reflexivity.
    + cbn [List.length]. rewrite H5. reflexivity.
    + cbn [Smoother.outputs]. rewrite ES. rewrite H6. reflexivity.
    + cbn [RepCounter.process_all]. rewrite EC. rewrite H7. reflexivity.
Qed.

(** X12.  The pipeline as a composition.  Over exact rationals, the
    loop of [simulate_streaming] on a fresh pipeline gets through every
    sample without the counter's [TypeError], one result per sample.
    It records the samples in order; its projector is the one [update]
    builds from them; the smoothed history is the output of a fresh
    smoother on the projected history; and its counter and results are
    those of a fresh counter fed the smoothed history, indexed from 0. *)
Theorem pipeline_run_is_composition (threshold : Q)
    (min_samples window warmup : Z) (alpha : Q) (raw_data : list Vec3) :
  exists p' rs,
    simulate_from (init threshold min_samples window warmup alpha) 0 raw_data
      = Some (p', rs) /\
    List.length rs = List.length raw_data /\
    raw_history p' = raw_data /\
    pca p' = PCA.update_all (PCA.init warmup) raw_data /\
    List.length (pc1_raw_history p') = List.length raw_data /\
    pc1_smooth_history p'
      = Smoother.outputs (Smoother.init alpha) (pc1_raw_history p') /\
    RepCounter.process_all (RepCounter.init threshold min_samples window) 0
                           (pc1_smooth_history p')
      = Some (counter p', rs).
Proof.
  destruct (simulate_from_stages threshold min_samples window
              (init threshold min_samples window warmup alpha) 0 raw_data
              (RepCounter.reach_init _ _ _))
    as (p' & rs & pc1 & smooth & E & H0 & H1 & H2 & H3 & H4 & H5 & H6 & H7 & H8).
  cbn [init raw_history pca pc1_raw_history pc1_smooth_history smoother counter
       app] in *.
  exists p', rs. rewrite E, H1, H2, H3, H4.
  subst smooth. repeat split; auto.
Qed.

End WithLinalg.

End PipelineFacts.

(** ** The session broker, continued *)

Module ServerMore.
Import Server ServerFacts.

Lemma open_clients_idem w cs : open_clients w (open_clients w cs) = open_clients w cs.
Proof.
  unfold open_clients. induction cs as [|c cs IH]; simpl; [reflexivity|].
  destruct (connection_closed w c) eqn:E; simpl; [exact IH|].
  rewrite E. simpl. rewrite IH. reflexivity.
Qed.

Lemma open_clients_after w self out :
  open_clients w (clients_after w self out) = open_clients w (clients self).
Proof. destruct out; simpl; [reflexivity|apply open_clients_idem]. Qed.

(** *** Who receives a broadcast *)

Lemma ret_frame w : pass_frame w (ret tt).
Proof.
  intros self u self' out E. inversion E; subst. simpl. repeat split; constructor.
Qed.

Lemma bind_frame w (m : Loop unit) (k : unit -> Loop unit) :
  pass_frame w m -> (forall x, pass_frame w (k x)) -> pass_frame w (bind m k).
Proof.
  intros Hm Hk self u self' out E. unfold bind in E.
  destruct (m self) as [[[x s1] o1]|] eqn:E1; [|discriminate].
  destruct (k x s1) as [[[y s2] o2]|] eqn:E2; [|discriminate].
  inversion E; subst. clear E.
  destruct (Hm _ _ _ _ E1) as (R1 & Q1 & C1 & F1).
  destruct (Hk x _ _ _ _ E2) as (R2 & Q2 & C2 & F2).
  repeat split; try congruence.
  - rewrite C2. destruct o2 as [|e o2]; simpl.
    + rewrite app_nil_r. exact C1.
    + rewrite C1, open_clients_after. destruct o1; reflexivity.
  - apply Forall_app. split; [exact F1|].
    rewrite C1, open_clients_after in F2. exact F2.
Qed.

Lemma broadcast_frame w msg : pass_frame w (_broadcast w msg).
Proof.
  intros self u self' out E. unfold _broadcast in E. inversion E; subst.
  simpl. repeat split. constructor; [reflexivity|constructor].
Qed.

Lemma when_frame w c m : pass_frame w m -> pass_frame w (when c m).
Proof. destruct c; simpl; auto using ret_frame. Qed.

#[local] Hint Resolve ret_frame bind_frame broadcast_frame when_frame : session.

Lemma auto_detect_frame w s : pass_frame w (auto_detect w s).
Proof.
  intros self u self' out. unfold auto_detect.
  destruct (auto_detect_buffer self) as [buf|]; [|apply ret_frame].
  destruct (len (buf ++ [to_float s]) >=? AUTO_DETECT_SAMPLES)%Z.
  - intros E.
    assert (B : exists msg, _broadcast w msg (set_buffer self None)
                            = Some (u, self', out)).
    { destruct (classifier w) as [c|]; [|eauto].
      destruct (len (buf ++ [to_float s]) >=? 10)%Z; [|eauto].
      destruct (c (buf ++ [to_float s])); eauto. }
    destruct B as (msg & B).
    exact (broadcast_frame w msg (set_buffer self None) u self' out B).
  - intros E. inversion E; subst. simpl. repeat split; constructor.
Qed.

Section WithLinalg.
Context `{Linalg}.

Lemma run_pipeline_frame w s : pass_frame w (run_pipeline w s).
Proof.
  intros self u self' out. unfold run_pipeline.
  destruct (pipeline self) as [p|]; [|apply ret_frame].
  destruct (to_float s) as [[ax ay] az].
  destruct (Pipeline.process_sample p ax ay az (sample_idx self)) as [[p' r]|];
    [|discriminate].
  match goal with
  | |- ?chain ?s1 = _ -> _ =>
      assert (D : pass_frame w chain) by auto 10 with session;
      intros E; exact (D s1 u self' out E)
  end.
Qed.

Lemma process_one_frame (w : World) (s : sample) : pass_frame w (process_one w s).
Proof.
  apply (bind_frame w (auto_detect w s) (fun _ => run_pipeline w s)).
  - apply auto_detect_frame.
  - intros _. apply run_pipeline_frame.
Qed.

(** X13.  Who receives a broadcast.  Take one round of the consumer
    loop as one atomic step, no viewer joining or leaving in the middle
    of it.  The round leaves [running] alone and takes the oldest
    sample, if there is one, off the queue.  Each message it broadcasts
    is delivered to exactly the clients whose connection is open, in
    the order of the client set; if the round broadcast anything, the
    clients whose [send] failed have left the set and the others
    remain, and if it broadcast nothing the set is unchanged. *)
Theorem broadcasts_reach_the_open_clients (w : World)
    (self self' : RepServer) (q : Queue) (out : list broadcast_event) :
  sample_queue self = Some q ->
  consumer_pass w self = Some (tt, self', out) ->
  running self' = running self /\
  sample_queue self' = Some {| maxsize := maxsize q; items := tl (items q) |} /\
  clients self' = clients_after w self out /\
  Forall (fun e => delivered e = open_clients w (clients self)) out.
Proof.
  intros Q. unfold consumer_pass. rewrite Q. unfold get_item.
  destruct q as [cap [|s rest]]; cbn [items maxsize tl].
  - intros E. inversion E; subst. simpl. rewrite Q. repeat split. constructor.
  - intros E.
    destruct (process_one_frame w s _ _ _ _ E) as (R & Q' & C & F).
    repeat split; assumption.
Qed.

End WithLinalg.

(** *** What a pass broadcasts *)

Lemma auto_detect_spec w s self :
  exists self' out,
    auto_detect w s self = Some (tt, self', out) /\
    pipeline self' = pipeline self /\
    sample_idx self' = sample_idx self /\
    match auto_detect_buffer self with
    | None => auto_detect_buffer self' = None /\ out = []
    | Some buf =>
        if (AUTO_DETECT_SAMPLES <=? len buf + 1)%Z
        then auto_detect_buffer self' = None /\
             exists label err,
               map sent out = [ExerciseDetected label (captured_rep_count self) err]
        else auto_detect_buffer self' = Some (buf ++ [to_float s]) /\ out = []
    end.
Proof.
  unfold auto_detect. destruct (auto_detect_buffer self) as [buf|] eqn:B.
  - rewrite len_app_one, Z.geb_leb.
    destruct (AUTO_DETECT_SAMPLES <=? len buf + 1)%Z.
    + change (captured_rep_count (set_buffer self None))
        with (captured_rep_count self).
      destruct (classifier w) as [c|];
        [destruct (len buf + 1 >=? 10)%Z; [destruct (c (buf ++ [to_float s]))|]|];
        simpl; eexists _, _; (split; [reflexivity|]); simpl; repeat split; eauto.
    + simpl. eexists _, _; repeat split; eauto.
  - simpl. eexists _, _; repeat split; eauto.
Qed.

Section WithLinalg.
Context `{Linalg}.

Lemma run_pipeline_spec w s self u self' out :
  run_pipeline w s self = Some (u, self', out) ->
  auto_detect_buffer self' = auto_detect_buffer self /\
  match pipeline self with
  | None => pipeline self' = None /\ sample_idx self' = sample_idx self /\ out = []
  | Some p =>
      exists ax ay az p' r,
        to_float s = (ax, ay, az) /\
        Pipeline.process_sample p ax ay az (sample_idx self) = Some (p', r) /\
        pipeline self' = Some p' /\
        sample_idx self' = (sample_idx self + 1)%Z /\
        map sent out = pipeline_messages (sample_idx self + 1) r
  end.
Proof.
  unfold run_pipeline. destruct (pipeline self) as [p|] eqn:P.
  - destruct (to_float s) as [[ax ay] az].
    destruct (Pipeline.process_sample p ax ay az (sample_idx self))
      as [[p' r]|] eqn:E; [|discriminate].
    unfold pipeline_messages, when, bind, _broadcast, ret.
    destruct (RepCounter.rep_detected r) eqn:D1,
             ((sample_idx self + 1) mod 3 =? 0)%Z eqn:D2,
             ((sample_idx self + 1) mod 50 =? 0)%Z eqn:D3;
      simpl; intros E'; inversion E'; subst; simpl; (split; [reflexivity|]);
      exists ax, ay, az, p', r; rewrite D1;
      repeat split; try reflexivity; exact E.
  - intros E. inversion E; subst. rewrite P. repeat split; reflexivity.
Qed.

Lemma process_one_spec w s self u self' out :
  process_one w s self = Some (u, self', out) ->
  exists cls rest,
    map sent out = cls ++ rest /\
    match auto_detect_buffer self with
    | None => auto_detect_buffer self' = None /\ cls = []
    | Some buf =>
        if (AUTO_DETECT_SAMPLES <=? len buf + 1)%Z
        then auto_detect_buffer self' = None /\
             exists label err,
               cls = [ExerciseDetected label (captured_rep_count self) err]
        else auto_detect_buffer self' = Some (buf ++ [to_float s]) /\ cls = []
    end /\
    match pipeline self with
    | None => pipeline self' = None /\ sample_idx self' = sample_idx self /\ rest = []
    | Some p =>
        exists ax ay az p' r,
          to_float s = (ax, ay, az) /\
          Pipeline.process_sample p ax ay az (sample_idx self) = Some (p', r) /\
          pipeline self' = Some p' /\
          sample_idx self' = (sample_idx self + 1)%Z /\
          rest = pipeline_messages (sample_idx self + 1) r
    end.
Proof.
  unfold process_one, bind.
  destruct (auto_detect_spec w s self) as (s1 & o1 & E1 & P1 & X1 & B1).
  rewrite E1.
  destruct (run_pipeline w s s1) as [[[u2 s2] o2]|] eqn:E2; [|discriminate].
  intros E. inversion E; subst. clear E.
  destruct (run_pipeline_spec _ _ _ _ _ _ E2) as (B2 & R2).
  rewrite P1, X1 in R2. exists (map sent o1), (map sent o2).
  split; [apply map_app|]. split.
  - rewrite B2. destruct (auto_detect_buffer self) as [buf|].
    + destruct (AUTO_DETECT_SAMPLES <=? len buf + 1)%Z.
      * destruct B1 as (B1 & label & err & M). split; [exact B1|]. eauto.
      * destruct B1 as (B1 & M). subst o1. auto.
    + destruct B1 as (B1 & M). subst o1. auto.
  - destruct (pipeline self) as [p|].
    + destruct R2 as (ax & ay & az & p' & r & F & EP & P' & X' & M).
      exists ax, ay, az, p', r. auto.
    + destruct R2 as (P' & X' & M). subst o2. auto.
Qed.

End WithLinalg.

Lemma div_step (d i : Z) :
  (0 < d)%Z ->
  ((i + 1) / d = i / d + (if (i + 1) mod d =? 0 then 1 else 0))%Z.
Proof.
  intros D. destruct ((i + 1) mod d =? 0)%Z eqn:E.
  - apply Z.eqb_eq in E. Z.div_mod_to_equations. nia.
  - apply Z.eqb_neq in E. Z.div_mod_to_equations. nia.
Qed.

Section Runs.
Context `{Linalg}.

Lemma process_many_cons w s rest self u self' out :
  process_many ((w, s) :: rest) self = Some (u, self', out) ->
  exists s1 o1 o2,
    process_one w s self = Some (tt, s1, o1) /\
    process_many rest s1 = Some (u, self', o2) /\
    out = o1 ++ o2.
Proof.
  cbn [process_many]. unfold bind at 1.
  destruct (process_one w s self) as [[[[] s1] o1]|]; [|discriminate].
  destruct (process_many rest s1) as [[[u2 s2] o2]|] eqn:E2; [|discriminate].
  intros E. inversion E; subst. exists s1, o1, o2. auto.
Qed.

Lemma filter_pipeline_messages_status i r :
  len (filter is_status (pipeline_messages i r))
  = (if (i mod 50 =? 0)%Z then 1 else 0)%Z.
Proof.
  unfold pipeline_messages.
  destruct (RepCounter.rep_detected r), (i mod 3 =? 0)%Z, (i mod 50 =? 0)%Z;
    reflexivity.
Qed.

Lemma filter_pipeline_messages_speed i r :
  len (filter is_speed (pipeline_messages i r))
  = (if (i mod 3 =? 0)%Z then 1 else 0)%Z.
Proof.
  unfold pipeline_messages.
  destruct (RepCounter.rep_detected r), (i mod 3 =? 0)%Z, (i mod 50 =? 0)%Z;
    reflexivity.
Qed.

Lemma len_filter_app {A} (f : A -> bool) (xs ys : list A) :
  len (filter f (xs ++ ys)) = (len (filter f xs) + len (filter f ys))%Z.
Proof. unfold len. rewrite filter_app, length_app. lia. Qed.

(** X14.  The heartbeat.  Over a run of passes on a server that holds a
    pipeline, none of which raises, the sample index goes up by one per
    pass, a status message is broadcast exactly when the index reaches
    a multiple of 50 and a speed message exactly when it reaches a
    multiple of 3: their numbers are the numbers of such multiples
    passed. *)
Theorem heartbeat_every_fifty_samples steps self u self' out p0 :
  process_many steps self = Some (u, self', out) ->
  pipeline self = Some p0 ->
  sample_idx self' = (sample_idx self + len steps)%Z /\
  len (filter is_status (map sent out))
    = (sample_idx self' / 50 - sample_idx self / 50)%Z /\
  len (filter is_speed (map sent out))
    = (sample_idx self' / 3 - sample_idx self / 3)%Z.
Proof.
  revert self p0 out. induction steps as [|[w s] rest IH]; intros self p0 out E P.
  - inversion E; subst. unfold len. simpl. repeat split; lia.
  - destruct (process_many_cons _ _ _ _ _ _ _ E) as (s1 & o1 & o2 & E1 & E2 & ->).
    destruct (process_one_spec _ _ _ _ _ _ E1) as (cls & rst & M & B & R).
    rewrite P in R. destruct R as (ax & ay & az & p' & r & _ & _ & P1 & X1 & ->).
    destruct (IH _ _ _ E2 P1) as (I1 & I2 & I3).
    assert (Lc : len ((w, s) :: rest) = (len rest + 1)%Z)
      by (unfold len; simpl List.length; lia).
    assert (C : len (filter is_status cls) = 0%Z /\ len (filter is_speed cls) = 0%Z).
    { destruct (auto_detect_buffer self) as [buf|].
      - destruct (AUTO_DETECT_SAMPLES <=? len buf + 1)%Z.
        + destruct B as (_ & label & err & ->). split; reflexivity.
        + destruct B as (_ & ->). split; reflexivity.
      - destruct B as (_ & ->). split; reflexivity. }
    destruct C as (C1 & C2).
    split; [rewrite I1, X1, Lc; lia|].
    rewrite map_app, !len_filter_app, M, !len_filter_app, C1, C2,
            filter_pipeline_messages_status, filter_pipeline_messages_speed,
            I2, I3, X1.
    rewrite (div_step 50 (sample_idx self)), (div_step 3 (sample_idx self)) by lia.
    split; lia.
Qed.

Lemma pipeline_step_counter (p p' : Pipeline.StreamingPipeline) ax ay az i r :
  Pipeline.process_sample p ax ay az i = Some (p', r) ->
  exists y, RepCounter.process_sample (Pipeline.counter p) y i
            = Some (Pipeline.counter p', r).
Proof.
  unfold Pipeline.process_sample.
  destruct (PCA.update (Pipeline.pca p) (ax, ay, az)) as [pca' v].
  destruct (Smoother.update (Pipeline.smoother p) v) as [sm' y].
  destruct (RepCounter.process_sample (Pipeline.counter p) y i) as [[c' r']|] eqn:E;
    [|discriminate].
  intros E'. inversion E'; subst. exists y. exact E.
Qed.

(** One pass: the captured count stays or goes up by one, and a [rep]
    message with the new count is sent exactly when it goes up. *)
Lemma process_one_rep_counts w s self u self' out :
  process_one w s self = Some (u, self', out) ->
  (captured_rep_count self' = captured_rep_count self /\
   rep_counts (map sent out) = [])
  \/
  (captured_rep_count self' = (captured_rep_count self + 1)%Z /\
   rep_counts (map sent out) = [(captured_rep_count self + 1)%Z]).
Proof.
  intros E. destruct (process_one_spec _ _ _ _ _ _ E) as (cls & rst & M & B & R).
  assert (C : rep_counts cls = []).
  { destruct (auto_detect_buffer self) as [buf|].
    - destruct (AUTO_DETECT_SAMPLES <=? len buf + 1)%Z.
      + destruct B as (_ & label & err & ->). reflexivity.
      + destruct B as (_ & ->). reflexivity.
    - destruct B as (_ & ->). reflexivity. }
  rewrite M. unfold rep_counts in *. rewrite flat_map_app, C. simpl app.
  unfold captured_rep_count.
  destruct (pipeline self) as [p|].
  - destruct R as (ax & ay & az & p' & r & _ & EP & P1 & _ & ->). rewrite P1.
    destruct (pipeline_step_counter _ _ _ _ _ _ _ EP) as (y & EC).
    destruct (RepCounterMore.process_sample_effect _ _ _ _ _ EC)
      as (K0 & _ & _ & _ & _ & [K|K]).
    + destruct K as (D & K1 & _). left. split; [exact K1|].
      unfold pipeline_messages. rewrite D.
      destruct ((sample_idx self + 1) mod 3 =? 0)%Z,
               ((sample_idx self + 1) mod 50 =? 0)%Z; reflexivity.
    + destruct K as (D & K1 & _). right. split; [exact K1|].
      unfold pipeline_messages. rewrite D, K0, K1.
      destruct ((sample_idx self + 1) mod 3 =? 0)%Z,
               ((sample_idx self + 1) mod 50 =? 0)%Z; reflexivity.
  - destruct R as (P1 & _ & ->). rewrite P1. left. split; reflexivity.
Qed.

(** X15.  Rep messages count up.  Over any run of passes the [rep]
    messages broadcast carry, in order, the counts [c + 1, c + 2, ...]
    up to the count the counter holds at the end, where [c] is the
    count it held at the start: no count is skipped, repeated or sent
    out of order. *)
Theorem rep_messages_count_up steps self u self' out :
  process_many steps self = Some (u, self', out) ->
  (captured_rep_count self <= captured_rep_count self')%Z /\
  rep_counts (map sent out)
    = count_up (captured_rep_count self)
               (Z.to_nat (captured_rep_count self' - captured_rep_count self)).
Proof.
  revert self out. induction steps as [|[w s] rest IH]; intros self out E.
  - inversion E; subst. rewrite Z.sub_diag. simpl. split; [lia|reflexivity].
  - destruct (process_many_cons _ _ _ _ _ _ _ E) as (s1 & o1 & o2 & E1 & E2 & ->).
    destruct (IH _ _ E2) as (I1 & I2).
    rewrite map_app. unfold rep_counts in *. rewrite flat_map_app, I2.
    destruct (process_one_rep_counts _ _ _ _ _ _ E1) as [(K1 & K2)|(K1 & K2)];
      unfold rep_counts in K2; rewrite K2, K1 in *.
    + split; [lia|reflexivity].
    + split; [lia|].
      replace (Z.to_nat (captured_rep_count self' - captured_rep_count self))
        with (S (Z.to_nat (captured_rep_count self'
                           - (captured_rep_count self + 1)))) by lia.
      reflexivity.
Qed.

Lemma process_one_buffer_closed w s self u self' out :
  process_one w s self = Some (u, self', out) ->
  auto_detect_buffer self = None ->
  auto_detect_buffer self' = None /\ filter is_exercise (map sent out) = [].
Proof.
  intros E B. destruct (process_one_spec _ _ _ _ _ _ E) as (cls & rst & M & C & R).
  rewrite B in C. destruct C as (C & ->). split; [exact C|].
  rewrite M. simpl app.
  destruct (pipeline self) as [p|].
  - destruct R as (ax & ay & az & p' & r & _ & _ & _ & _ & ->).
    unfold pipeline_messages.
    destruct (RepCounter.rep_detected r), ((sample_idx self + 1) mod 3 =? 0)%Z,
             ((sample_idx self + 1) mod 50 =? 0)%Z; reflexivity.
  - destruct R as (_ & _ & ->). reflexivity.
Qed.

(** X16.  No classification unless asked.  While no classification buffer
    is open, a run of passes opens none and broadcasts no
    [exercise_detected] message. *)
Theorem no_classification_without_request steps self u self' out :
  process_many steps self = Some (u, self', out) ->
  auto_detect_buffer self = None ->
  auto_detect_buffer self' = None /\
  filter is_exercise (map sent out) = [].
Proof.
  revert self out. induction steps as [|[w s] rest IH]; intros self out E B.
  - inversion E; subst. auto.
  - destruct (process_many_cons _ _ _ _ _ _ _ E) as (s1 & o1 & o2 & E1 & E2 & ->).
    destruct (process_one_buffer_closed _ _ _ _ _ _ E1 B) as (B1 & F1).
    destruct (IH _ _ E2 B1) as (B2 & F2).
    split; [exact B2|]. rewrite map_app, filter_app, F1, F2. reflexivity.
Qed.

(** X17.  Classification waits for its samples.  While an open
    classification buffer and the samples of a run together hold fewer
    than [AUTO_DETECT_SAMPLES = 200] samples, the run broadcasts no
    [exercise_detected] message and leaves the buffer open, holding the
    old samples followed by the run's, as floats and in order. *)
Theorem classification_waits_for_its_samples steps self u self' out buf :
  process_many steps self = Some (u, self', out) ->
  auto_detect_buffer self = Some buf ->
  (len buf + len steps < AUTO_DETECT_SAMPLES)%Z ->
  auto_detect_buffer self'
    = Some (buf ++ map (fun step => to_float (snd step)) steps) /\
  filter is_exercise (map sent out) = [].
Proof.
  revert self out buf. induction steps as [|[w s] rest IH]; intros self out buf E B L.
  - inversion E; subst. rewrite app_nil_r. auto.
  - destruct (process_many_cons _ _ _ _ _ _ _ E) as (s1 & o1 & o2 & E1 & E2 & ->).
    assert (Lc : len ((w, s) :: rest) = (len rest + 1)%Z)
      by (unfold len; simpl List.length; lia).
    assert (L0 : (0 <= len rest)%Z) by (unfold len; lia).
    destruct (process_one_spec _ _ _ _ _ _ E1) as (cls & rst & M & C & R).
    rewrite B in C.
    destruct (AUTO_DETECT_SAMPLES <=? len buf + 1)%Z eqn:G;
      [apply Z.leb_le in G; lia|].
    destruct C as (B1 & ->).
    destruct (IH _ _ _ E2 B1) as (B2 & F2); [rewrite len_app_one; lia|].
    split.
    + rewrite B2. simpl map. rewrite <- app_assoc. reflexivity.
    + rewrite map_app, filter_app, F2, M, app_nil_r. simpl app.
      destruct (pipeline self) as [p|].
      * destruct R as (ax & ay & az & p' & r & _ & _ & _ & _ & ->).
        unfold pipeline_messages.
        destruct (RepCounter.rep_detected r), ((sample_idx self + 1) mod 3 =? 0)%Z,
                 ((sample_idx self + 1) mod 50 =? 0)%Z; reflexivity.
      * destruct R as (_ & _ & ->). reflexivity.
Qed.

(** X18.  What the loop never sends.  Every message a run of passes
    broadcasts is a rep, a status, a classification result, or a speed
    message with deviation 0, phase [concentric] and [active] false:
    never a set-boundary message, and none of the replies the
    connection handler sends. *)
Theorem loop_sends_only_its_messages steps self u self' out :
  process_many steps self = Some (u, self', out) ->
  Forall loop_message (map sent out).
Proof.
  revert self out. induction steps as [|[w s] rest IH]; intros self out E.
  - inversion E; subst. constructor.
  - destruct (process_many_cons _ _ _ _ _ _ _ E) as (s1 & o1 & o2 & E1 & E2 & ->).
    rewrite map_app. apply Forall_app. split; [|eapply IH; eauto].
    destruct (process_one_spec _ _ _ _ _ _ E1) as (cls & rst & M & C & R).
    rewrite M. apply Forall_app. split.
    + destruct (auto_detect_buffer self) as [buf|].
      * destruct (AUTO_DETECT_SAMPLES <=? len buf + 1)%Z.
        -- destruct C as (_ & label & err & ->). repeat constructor.
        -- destruct C as (_ & ->). constructor.
      * destruct C as (_ & ->). constructor.
    + destruct (pipeline self) as [p|].
      * destruct R as (ax & ay & az & p' & r & _ & _ & _ & _ & ->).
        unfold pipeline_messages.
        destruct (RepCounter.rep_detected r), ((sample_idx self + 1) mod 3 =? 0)%Z,
                 ((sample_idx self + 1) mod 50 =? 0)%Z;
          repeat constructor.
      * destruct R as (_ & _ & ->). constructor.
Qed.

End Runs.

(** *** The queue *)

Lemma set_queue_same self q : sample_queue self = Some q -> set_queue self q = self.
Proof. destruct self. simpl. intros ->. reflexivity. Qed.

(** X19.  A full queue keeps what it has.  On a server whose queue has a
    positive capacity and is not over it, a run of producer callbacks
    with no consumer pass in between enqueues the samples in order
    until the queue is full and loses every later one; nothing else of
    the server changes. *)
Theorem queue_keeps_the_oldest_samples self q produced :
  sample_queue self = Some q ->
  (0 < maxsize q)%Z ->
  (len (items q) <= maxsize q)%Z ->
  enqueue_all self produced
  = set_queue self
      {| maxsize := maxsize q;
         items := items q
                  ++ firstn (Z.to_nat (maxsize q - len (items q))) produced |}.
Proof.
  revert self q. induction produced as [|x rest IH]; intros self q Q M L.
  - simpl. rewrite firstn_nil, app_nil_r. destruct q. symmetry.
    apply set_queue_same. exact Q.
  - unfold enqueue_all. cbn [fold_left]. fold (enqueue_all (fst (enqueue_callback self x)) rest).
    unfold enqueue_callback, put_nowait, full. rewrite Q.
    destruct (maxsize q <=? 0)%Z eqn:Z0; [apply Z.leb_le in Z0; lia|].
    destruct (len (items q) >=? maxsize q)%Z eqn:F.
    + apply Z.geb_le in F. cbn [fst].
      rewrite (IH self q Q M L).
      replace (maxsize q - len (items q))%Z with 0%Z by lia. reflexivity.
    + rewrite Z.geb_leb in F. apply Z.leb_gt in F. cbn [fst].
      rewrite (IH (set_queue self {| maxsize := maxsize q; items := items q ++ [x] |})
                  {| maxsize := maxsize q; items := items q ++ [x] |});
        [|reflexivity|exact M|cbn [items maxsize]; rewrite len_app_one; lia].
      cbn [items maxsize]. rewrite len_app_one.
      replace (Z.to_nat (maxsize q - len (items q)))
        with (S (Z.to_nat (maxsize q - (len (items q) + 1)))) by lia.
      cbn [firstn]. rewrite <- app_assoc. reflexivity.
Qed.

Lemma queue_keeps_the_oldest_samples_witness :
  enqueue_all (set_queue init {| maxsize := 2; items := [(9, 9, 9)%Z] |})
              [(1, 1, 1); (2, 2, 2); (3, 3, 3)]%Z
  = set_queue (set_queue init {| maxsize := 2; items := [(9, 9, 9)%Z] |})
      {| maxsize := maxsize {| maxsize := 2; items := [(9, 9, 9)%Z] |};
         items := items {| maxsize := 2; items := [(9, 9, 9)%Z] |}
                  ++ firstn (Z.to_nat
                               (maxsize {| maxsize := 2; items := [(9, 9, 9)%Z] |}
                                - len (items {| maxsize := 2;
                                                items := [(9, 9, 9)%Z] |})))
                            [(1, 1, 1); (2, 2, 2); (3, 3, 3)]%Z |}.
Proof.
  apply (queue_keeps_the_oldest_samples
           (set_queue init {| maxsize := 2; items := [(9, 9, 9)%Z] |})
           {| maxsize := 2; items := [(9, 9, 9)%Z] |}
           [(1, 1, 1); (2, 2, 2); (3, 3, 3)]%Z).
  - reflexivity.
  - reflexivity.
  - vm_compute. discriminate.
Defined.

Lemma ret_blind {A} (x : A) : queue_blind (ret x).
Proof. intros self q. reflexivity. Qed.

Lemma bind_blind {A B} (m : Loop A) (k : A -> Loop B) :
  queue_blind m -> (forall x, queue_blind (k x)) -> queue_blind (bind m k).
Proof.
  intros Hm Hk self q. unfold bind. rewrite Hm.
  destruct (m self) as [[[x s1] o1]|]; [|reflexivity]. simpl. rewrite Hk.
  destruct (k x s1) as [[[y s2] o2]|]; reflexivity.
Qed.

Lemma broadcast_blind w msg : queue_blind (_broadcast w msg).
Proof. intros self q. reflexivity. Qed.

Lemma when_blind c (m : Loop unit) : queue_blind m -> queue_blind (when c m).
Proof. destruct c; simpl; auto using ret_blind. Qed.

#[local] Hint Resolve ret_blind bind_blind broadcast_blind when_blind : session.

Lemma auto_detect_blind w s : queue_blind (auto_detect w s).
Proof.
  intros self q. unfold auto_detect. cbn [auto_detect_buffer set_queue].
  destruct (auto_detect_buffer self) as [buf|]; [|reflexivity].
  destruct (len (buf ++ [to_float s]) >=? AUTO_DETECT_SAMPLES)%Z; [|reflexivity].
  destruct (classifier w) as [c|]; [|reflexivity].
  destruct (len (buf ++ [to_float s]) >=? 10)%Z; [|reflexivity].
  destruct (c (buf ++ [to_float s])); reflexivity.
Qed.

Lemma with_queue_twice {A} q q' (r : option (A * RepServer * list broadcast_event)) :
  with_queue q (with_queue q' r) = with_queue q r.
Proof. destruct r as [[[a s] o]|]; reflexivity. Qed.

Section Draining.
Context `{Linalg}.

Lemma run_pipeline_blind w s : queue_blind (run_pipeline w s).
Proof.
  intros self q. unfold run_pipeline. cbn [pipeline sample_idx set_queue].
  destruct (pipeline self) as [p|]; [|reflexivity].
  destruct (to_float s) as [[ax ay] az].
  destruct (Pipeline.process_sample p ax ay az (sample_idx self)) as [[p' r]|];
    [|reflexivity].
  match goal with
  | |- ?chain ?s1 = with_queue q (?chain ?s2) =>
      assert (D : queue_blind chain) by auto 10 with session;
      rewrite <- (D s2 q)
  end.
  reflexivity.
Qed.

Lemma process_one_blind w s : queue_blind (process_one w s).
Proof.
  apply bind_blind; [apply auto_detect_blind|intros _; apply run_pipeline_blind].
Qed.

Lemma process_many_blind steps : queue_blind (process_many steps).
Proof.
  induction steps as [|[w s] rest IH]; [apply ret_blind|].
  apply bind_blind; [apply process_one_blind|intros _; exact IH].
Qed.

(** X20.  First in, first out.  On a server whose queue holds some
    samples, as many rounds of the consumer loop as there are samples
    do what the passes on those samples do, oldest first, and leave the
    queue empty. *)
Theorem queued_samples_processed_in_order w self q :
  sample_queue self = Some q ->
  consume w (List.length (items q)) self
  = with_queue {| maxsize := maxsize q; items := [] |}
               (process_many (map (fun s => (w, s)) (items q)) self).
Proof.
  destruct q as [cap its]. cbn [items maxsize]. revert self.
  induction its as [|s rest IH]; intros self Q.
  - simpl. unfold ret. rewrite set_queue_same by exact Q. reflexivity.
  - cbn [List.length consume map process_many]. unfold bind.
    unfold consumer_pass. rewrite Q. cbn [get_item items maxsize].
    rewrite process_one_blind.
    destruct (process_one w s self) as [[[[] s1] o1]|]; [|reflexivity].
    cbn [with_queue].
    rewrite (IH (set_queue s1 {| maxsize := cap; items := rest |}) eq_refl).
    rewrite process_many_blind, with_queue_twice.
    destruct (process_many (map (fun s0 => (w, s0)) rest) s1) as [[[u s2] o2]|];
      reflexivity.
Qed.

End Draining.

Lemma queued_samples_processed_in_order_witness :
  @consume example_linalg no_model
     (List.length (items {| maxsize := 1000; items := [(1, 2, 3); (4, 5, 6)]%Z |}))
     (set_queue (_reset_pipeline init)
                {| maxsize := 1000; items := [(1, 2, 3); (4, 5, 6)]%Z |})
  = with_queue
      {| maxsize := maxsize {| maxsize := 1000; items := [(1, 2, 3); (4, 5, 6)]%Z |};
         items := [] |}
      (@process_many example_linalg
         (map (fun s => (no_model, s))
              (items {| maxsize := 1000; items := [(1, 2, 3); (4, 5, 6)]%Z |}))
         (set_queue (_reset_pipeline init)
                    {| maxsize := 1000; items := [(1, 2, 3); (4, 5, 6)]%Z |})).
Proof.
  apply (@queued_samples_processed_in_order example_linalg no_model
           (set_queue (_reset_pipeline init)
                      {| maxsize := 1000; items := [(1, 2, 3); (4, 5, 6)]%Z |})
           {| maxsize := 1000; items := [(1, 2, 3); (4, 5, 6)]%Z |}).
  reflexivity.
Defined.

(** *** Connections *)

Lemma on_message_frame w ws self m :
  clients (after (on_message w ws self m)) = clients self /\
  running (after (on_message w ws self m)) = running self /\
  sample_queue (after (on_message w ws self m)) = sample_queue self.
Proof.
  unfold on_message, send.
  destruct m as [|[]]; try (repeat split; reflexivity).
  destruct (is_str (get "action" items0) "reset");
    [|destruct (is_str (get "action" items0) "start_auto_detect")];
    try destruct (connection_closed w ws); repeat split; reflexivity.
Qed.

Lemma message_loop_frame w ws msgs self :
  clients (server (message_loop w ws self msgs)) = clients self /\
  running (server (message_loop w ws self msgs)) = running self /\
  sample_queue (server (message_loop w ws self msgs)) = sample_queue self.
Proof.
  revert self. induction msgs as [|m rest IH]; intros self; [repeat split|].
  cbn [message_loop].
  pose proof (on_message_frame w ws self m) as F.
  destruct (on_message w ws self m) as [s1 out|e s1]; cbn [after] in F.
  - cbn [server]. destruct (IH s1) as (I1 & I2 & I3).
    destruct F as (F1 & F2 & F3). repeat split; congruence.
  - destruct e; exact F.
Qed.

Lemma discard_add ws cs :
  discard_client ws (add_client ws cs) = discard_client ws cs.
Proof.
  unfold add_client, discard_client.
  destruct (existsb (Nat.eqb ws) cs); [reflexivity|].
  rewrite filter_app. simpl. rewrite Nat.eqb_refl. simpl. apply app_nil_r.
Qed.

Lemma message_loop_each_frame ws msgs self :
  clients (server (message_loop_each ws self msgs)) = clients self /\
  running (server (message_loop_each ws self msgs)) = running self /\
  sample_queue (server (message_loop_each ws self msgs)) = sample_queue self.
Proof.
  revert self. induction msgs as [|[w m] rest IH]; intros self; [repeat split|].
  cbn [message_loop_each].
  pose proof (on_message_frame w ws self m) as F.
  destruct (on_message w ws self m) as [s1 out|e s1]; cbn [after] in F.
  - cbn [server]. destruct (IH s1) as (I1 & I2 & I3).
    destruct F as (F1 & F2 & F3). repeat split; congruence.
  - destruct e; exact F.
Qed.

(** With one world throughout, the handler of changing worlds is
    [_handle_client]. *)
Lemma handle_client_each_same w ws self msgs :
  _handle_client_each w ws self (map (fun m => (w, m)) msgs)
  = _handle_client w ws self msgs.
Proof.
  assert (L : forall s0, message_loop_each ws s0 (map (fun m => (w, m)) msgs)
                         = message_loop w ws s0 msgs).
  { induction msgs as [|m rest IH]; intros s0; [reflexivity|].
    cbn [map message_loop_each message_loop].
    destruct (on_message w ws s0 m) as [s1 out|e s1].
    - rewrite IH. reflexivity.
    - rewrite map_map, map_id. destruct e; reflexivity. }
  unfold _handle_client_each, _handle_client.
  destruct (on_connect w ws self) as [s1 hello|e s1].
  - rewrite L. reflexivity.
  - rewrite map_map, map_id. reflexivity.
Qed.

(** X21.  A handler cleans up after itself.  For a viewer whose
    connection takes the greeting, whatever it sends afterwards and
    however the handler ends (the viewer closes, a reply meets a closed
    connection and [ConnectionClosed] is caught, or another exception
    escapes), the first reply is [connected]; and when the handler is
    over the viewer is not in the client set, the other clients are all
    still there in their order, and [running] and the queue are as they
    were.  Handling of one message is taken as one atomic step. *)
Theorem handler_discards_its_client w ws self msgs :
  connection_closed w ws = false ->
  clients (server (_handle_client_each w ws self msgs))
    = discard_client ws (clients self) /\
  ~ In ws (clients (server (_handle_client_each w ws self msgs))) /\
  (forall c, c <> ws -> In c (clients self) ->
             In c (clients (server (_handle_client_each w ws self msgs)))) /\
  hd_error (replies (_handle_client_each w ws self msgs)) = Some Connected /\
  running (server (_handle_client_each w ws self msgs)) = running self /\
  sample_queue (server (_handle_client_each w ws self msgs)) = sample_queue self.
Proof.
  intros O. unfold _handle_client_each, on_connect, send. rewrite O.
  cbn [server replies clients set_clients running sample_queue hd_error app].
  match goal with
  | |- context [message_loop_each ws ?s0 msgs] =>
      destruct (message_loop_each_frame ws msgs s0) as (F1 & F2 & F3)
  end.
  rewrite F1, F2, F3. cbn [clients _reset_pipeline set_clients running sample_queue].
  rewrite discard_add.
  split; [reflexivity|]. split; [|split; [|repeat split]].
  - unfold discard_client. rewrite filter_In. intros [_ N].
    rewrite Nat.eqb_refl in N. discriminate N.
  - intros c N I. unfold discard_client. apply filter_In. split; [exact I|].
    destruct (Nat.eqb_spec ws c); [congruence|reflexivity].
Qed.

Lemma handler_discards_its_client_witness :
  let reset_request := Loaded (JObject [("action"%string, JString "reset")]) in
  let h := _handle_client_each no_model 2 mid_session
             [(no_model, JSONDecodeError); (two_closed, reset_request);
              (no_model, reset_request)] in
  how h = Caught /\
  replies h = [Connected] /\
  unread h = [reset_request] /\
  clients (server h) = [1; 3]%nat /\
  clients (server h) = discard_client 2 (clients mid_session) /\
  ~ In 2%nat (clients (server h)) /\
  (forall c, c <> 2%nat -> In c (clients mid_session) -> In c (clients (server h))) /\
  hd_error (replies h) = Some Connected /\
  running (server h) = running mid_session /\
  sample_queue (server h) = sample_queue mid_session.
Proof.
  cbv zeta.
  split; [reflexivity|]. split; [reflexivity|]. split; [reflexivity|].
  split; [reflexivity|].
  apply (handler_discards_its_client no_model 2 mid_session
           [(no_model, JSONDecodeError);
            (two_closed, Loaded (JObject [("action"%string, JString "reset")]));
            (no_model, Loaded (JObject [("action"%string, JString "reset")]))]).
  reflexivity.
Defined.

(** *** Witnesses for the runs *)

Lemma broadcasts_reach_the_open_clients_witness :
  let q := {| maxsize := 1000; items := [(1, 2, 3); (4, 5, 6)]%Z |} in
  exists self' out,
    @consumer_pass example_linalg two_closed (set_queue mid_session q)
      = Some (tt, self', out) /\
    map sent out = [Status 50 0] /\
    map delivered out = [[1; 3]%nat] /\
    clients self' = [1; 3]%nat /\
    running self' = running (set_queue mid_session q) /\
    sample_queue self' = Some {| maxsize := maxsize q; items := tl (items q) |} /\
    clients self' = clients_after two_closed (set_queue mid_session q) out /\
    Forall (fun e => delivered e
                     = open_clients two_closed (clients (set_queue mid_session q)))
           out.
Proof.
  cbv zeta.
  destruct (@consumer_pass example_linalg two_closed
              (set_queue mid_session
                 {| maxsize := 1000; items := [(1, 2, 3); (4, 5, 6)]%Z |}))
    as [[[[] s] o]|] eqn:E; [|vm_compute in E; discriminate E].
  exists s, o. split; [reflexivity|].
  pose proof (@broadcasts_reach_the_open_clients example_linalg two_closed
                (set_queue mid_session
                   {| maxsize := 1000; items := [(1, 2, 3); (4, 5, 6)]%Z |})
                s {| maxsize := 1000; items := [(1, 2, 3); (4, 5, 6)]%Z |} o
                eq_refl E) as (R & Q & C & F).
  vm_compute in E. injection E as <- <-.
  repeat split; try reflexivity; assumption.
Defined.

Lemma heartbeat_every_fifty_samples_witness :
  exists u self' out,
    @process_many example_linalg [(no_model, (1, 2, 3)%Z); (no_model, (4, 5, 6)%Z)]
                  mid_session = Some (u, self', out) /\
    sample_idx self'
      = (sample_idx mid_session
         + len [(no_model, (1, 2, 3)%Z); (no_model, (4, 5, 6)%Z)])%Z /\
    len (filter is_status (map sent out))
      = (sample_idx self' / 50 - sample_idx mid_session / 50)%Z /\
    len (filter is_speed (map sent out))
      = (sample_idx self' / 3 - sample_idx mid_session / 3)%Z.
Proof.
  destruct (@process_many example_linalg
              [(no_model, (1, 2, 3)%Z); (no_model, (4, 5, 6)%Z)] mid_session)
    as [[[u s] o]|] eqn:E; [|vm_compute in E; discriminate E].
  exists u, s, o. split; [reflexivity|].
  exact (@heartbeat_every_fifty_samples example_linalg _ _ _ _ _
           (Pipeline.init 21 20 50 30 (15 # 100)) E eq_refl).
Defined.

Lemma rep_messages_count_up_witness :
  exists u self' out,
    @process_many example_linalg [(no_model, (1, 2, 3)%Z)] about_to_count
      = Some (u, self', out) /\
    captured_rep_count about_to_count = 0%Z /\
    captured_rep_count self' = 1%Z /\
    rep_counts (map sent out) = [1%Z] /\
    (captured_rep_count about_to_count <= captured_rep_count self')%Z /\
    rep_counts (map sent out)
      = count_up (captured_rep_count about_to_count)
                 (Z.to_nat (captured_rep_count self'
                            - captured_rep_count about_to_count)).
Proof.
  destruct (@process_many example_linalg [(no_model, (1, 2, 3)%Z)] about_to_count)
    as [[[u s] o]|] eqn:E; [|vm_compute in E; discriminate E].
  exists u, s, o. split; [reflexivity|].
  pose proof (@rep_messages_count_up example_linalg _ _ _ _ _ E) as (M & K).
  vm_compute in E. injection E as <- <- <-.
  repeat split; try (vm_compute; reflexivity); assumption.
Defined.

Lemma no_classification_without_request_witness :
  exists u self' out,
    @process_many example_linalg [(no_model, (1, 2, 3)%Z); (no_model, (4, 5, 6)%Z)]
                  mid_session = Some (u, self', out) /\
    auto_detect_buffer self' = None /\
    filter is_exercise (map sent out) = [].
Proof.
  destruct (@process_many example_linalg
              [(no_model, (1, 2, 3)%Z); (no_model, (4, 5, 6)%Z)] mid_session)
    as [[[u s] o]|] eqn:E; [|vm_compute in E; discriminate E].
  exists u, s, o. split; [reflexivity|].
  exact (@no_classification_without_request example_linalg _ _ _ _ _ E eq_refl).
Defined.

Lemma classification_waits_for_its_samples_witness :
  exists u self' out,
    @process_many example_linalg [(no_model, (1, 2, 3)%Z); (no_model, (4, 5, 6)%Z)]
                  (set_buffer mid_session (Some [(7, 7, 7)]))
      = Some (u, self', out) /\
    auto_detect_buffer self'
      = Some ([(7, 7, 7)]
              ++ map (fun step : World * sample => to_float (snd step))
                     [(no_model, (1, 2, 3)%Z); (no_model, (4, 5, 6)%Z)]) /\
    filter is_exercise (map sent out) = [].
Proof.
  destruct (@process_many example_linalg
              [(no_model, (1, 2, 3)%Z); (no_model, (4, 5, 6)%Z)]
              (set_buffer mid_session (Some [(7, 7, 7)])))
    as [[[u s] o]|] eqn:E; [|vm_compute in E; discriminate E].
  exists u, s, o. split; [reflexivity|].
  apply (@classification_waits_for_its_samples example_linalg _ _ _ _ _ _ E eq_refl).
  vm_compute. reflexivity.
Defined.

Lemma loop_sends_only_its_messages_witness :
  exists u self' out,
    @process_many example_linalg [(no_model, (1, 2, 3)%Z); (no_model, (4, 5, 6)%Z)]
                  mid_session = Some (u, self', out) /\
    Forall loop_message (map sent out).
Proof.
  destruct (@process_many example_linalg
              [(no_model, (1, 2, 3)%Z); (no_model, (4, 5, 6)%Z)] mid_session)
    as [[[u s] o]|] eqn:E; [|vm_compute in E; discriminate E].
  exists u, s, o. split; [reflexivity|].
  exact (@loop_sends_only_its_messages example_linalg _ _ _ _ _ E).
Defined.

End ServerMore.

(** ** The classifier's entry point *)

Module ClassifierFacts.
Import Classifier.

Lemma slice_inside {A} (data : list A) (start w : Z) :
  (0 <= start)%Z -> (0 <= w)%Z -> (start + w <= len data)%Z ->
  slice data start (start + w)
  = firstn (Z.to_nat w) (skipn (Z.to_nat start) data) /\
  len (slice data start (start + w)) = w.
Proof.
  intros S W L. unfold slice.
  destruct (start <? 0)%Z eqn:E1; [apply Z.ltb_lt in E1; lia|].
  destruct (start + w <? 0)%Z eqn:E2; [apply Z.ltb_lt in E2; lia|].
  rewrite !Z.min_l by lia.
  replace (start + w - start)%Z with w by lia.
  split; [reflexivity|].
  unfold len in *. rewrite length_firstn, length_skipn. lia.
Qed.

(** X22.  The sliding windows.  For a positive window size and step, a
    sequence shorter than the window gives no window; any other
    sequence of [n] samples gives [(n - window_size) / step + 1]
    windows, window [k] being the [window_size] samples from position
    [k * step] on.  A step of 0 raises. *)
Theorem windows_are_the_slices {A} (data : list A) (window_size step : Z) :
  (0 < window_size)%Z ->
  (0 < step)%Z ->
  windows_from_sequence data window_size 0 = None /\
  ((len data < window_size)%Z ->
   windows_from_sequence data window_size step = Some []) /\
  ((window_size <= len data)%Z ->
   exists windows,
     windows_from_sequence data window_size step = Some windows /\
     len windows = ((len data - window_size) / step + 1)%Z /\
     forall k win,
       nth_error windows k = Some win ->
       win = firstn (Z.to_nat window_size) (skipn (k * Z.to_nat step) data) /\
       len win = window_size).
Proof.
  intros W S. split; [reflexivity|].
  unfold windows_from_sequence, range0.
  destruct (step =? 0)%Z eqn:E0; [apply Z.eqb_eq in E0; lia|].
  destruct (0 <? step)%Z eqn:E1; [|apply Z.ltb_ge in E1; lia].
  split.
  - intros L.
    destruct (0 <? len data - window_size + 1)%Z eqn:E2;
      [apply Z.ltb_lt in E2; lia|reflexivity].
  - intros L.
    destruct (0 <? len data - window_size + 1)%Z eqn:E2;
      [|apply Z.ltb_ge in E2; lia].
    replace (len data - window_size + 1 - 1)%Z with (len data - window_size)%Z
      by lia.
    set (count := ((len data - window_size) / step + 1)%Z).
    assert (C0 : (0 <= (len data - window_size) / step)%Z)
      by (apply Z.div_pos; lia).
    eexists. split; [reflexivity|]. split.
    + unfold len at 1. rewrite !length_map, length_seq. lia.
    + intros k win N. rewrite !nth_error_map, nth_error_seq in N.
      destruct (k <? Z.to_nat count)%nat eqn:K; [|discriminate N].
      apply Nat.ltb_lt in K. cbn [option_map Nat.add] in N.
      injection N as <-.
      assert (B : (Z.of_nat k * step <= len data - window_size)%Z).
      { assert (Z.of_nat k <= (len data - window_size) / step)%Z by lia.
        pose proof (Z.mul_div_le (len data - window_size) step S). nia. }
      destruct (slice_inside data (Z.of_nat k * step) window_size) as (E & F);
        try lia.
      split; [rewrite E|exact F].
      replace (Z.to_nat (Z.of_nat k * step)) with (k * Z.to_nat step)%nat by nia.
      reflexivity.
Qed.

Lemma windows_are_the_slices_witness :
  windows_from_sequence [1; 2; 3; 4; 5; 6; 7]%Z 3 0 = None /\
  ((len [1; 2; 3; 4; 5; 6; 7]%Z < 3)%Z ->
   windows_from_sequence [1; 2; 3; 4; 5; 6; 7]%Z 3 2 = Some []) /\
  ((3 <= len [1; 2; 3; 4; 5; 6; 7]%Z)%Z ->
   exists windows,
     windows_from_sequence [1; 2; 3; 4; 5; 6; 7]%Z 3 2 = Some windows /\
     len windows = ((len [1; 2; 3; 4; 5; 6; 7]%Z - 3) / 2 + 1)%Z /\
     forall k win,
       nth_error windows k = Some win ->
       win = firstn (Z.to_nat 3) (skipn (k * Z.to_nat 2) [1; 2; 3; 4; 5; 6; 7]%Z) /\
       len win = 3%Z).
Proof.
  apply (windows_are_the_slices [1; 2; 3; 4; 5; 6; 7]%Z 3 2); reflexivity.
Defined.

Lemma predict_all_error {A} (predict_window : list A -> string + string) windows e :
  predict_all predict_window windows = inr e -> exists text, e = PredictError text.
Proof.
  induction windows as [|win rest IH]; simpl; [discriminate|].
  destruct (predict_window win) as [label|text].
  - destruct (predict_all predict_window rest) as [labels|e'];
      [discriminate|].
    intros E. inversion E; subst. apply IH. reflexivity.
  - intros E. inversion E; subst. eauto.
Qed.

(** X23.  Too short to classify.  [classify_exercise] raises its own
    "data too short" error exactly when the sequence is shorter than
    the window size and shorter than 10 samples; and a sequence shorter
    than the window size but of 10 samples or more is classified as one
    window, the whole sequence. *)
Theorem too_short_below_ten_samples {A}
    (predict_window : list A -> string + string) (data : list A)
    (window_size step : Z) :
  (classify_exercise predict_window data window_size step = inr TooShort
   <-> (len data < window_size)%Z /\ (len data < 10)%Z) /\
  ((len data < window_size)%Z -> (10 <= len data)%Z ->
   classify_exercise predict_window data window_size step
   = match predict_window data with
     | inl label => inl label
     | inr text => inr (PredictError text)
     end).
Proof.
  unfold classify_exercise.
  destruct (len data <? window_size)%Z eqn:L.
  - apply Z.ltb_lt in L. rewrite Z.min_r by lia.
    assert (D : slice data 0 (len data) = data).
    { assert (N : (0 <= len data)%Z) by (unfold len; lia).
      destruct (slice_inside data 0 (len data)) as (E & _); try lia.
      simpl Z.add in E. rewrite E. simpl skipn. apply firstn_all2.
      unfold len. lia. }
    rewrite D.
    destruct (len data <? 10)%Z eqn:T.
    + apply Z.ltb_lt in T. split; [split; auto|]. intros _ T'. lia.
    + apply Z.ltb_ge in T. split; [|reflexivity].
      split; [|lia].
      destruct (predict_window data); discriminate.
  - apply Z.ltb_ge in L. split; [|lia].
    split; [|lia].
    destruct (windows_from_sequence data window_size step) as [[|win rest]|];
      try discriminate.
    destruct (predict_all predict_window (win :: rest)) as [preds|e] eqn:P;
      [discriminate|].
    destruct (predict_all_error _ _ _ P) as (text & ->). discriminate.
Qed.

Lemma insert_unique_In x l sorted :
  In x (insert_unique l sorted) <-> x = l \/ In x sorted.
Proof.
  induction sorted as [|k rest IH]; cbn [insert_unique In];
    [intuition congruence|].
  destruct (String_as_OT.compare_spec l k) as [E|_|_]; cbn [In].
  - unfold String_as_OT.eq in E. subst k. intuition congruence.
  - intuition congruence.
  - rewrite IH. intuition congruence.
Qed.

Lemma np_unique_In x preds : In x (np_unique preds) <-> In x preds.
Proof.
  induction preds as [|p preds IH]; cbn [np_unique fold_right In]; [tauto|].
  fold (np_unique preds). rewrite insert_unique_In, IH.
  intuition congruence.
Qed.

(** The index [argmax_from] returns is in range and holds a maximum. *)
Lemma argmax_from_max (pre rest : list nat) (best bv : nat) :
  (best < List.length pre)%nat ->
  nth best (pre ++ rest) 0%nat = bv ->
  (forall j, (j < List.length pre)%nat -> (nth j (pre ++ rest) 0 <= bv)%nat) ->
  let r := argmax_from (List.length pre) best bv rest in
  (r < List.length (pre ++ rest))%nat /\
  forall j, (nth j (pre ++ rest) 0 <= nth r (pre ++ rest) 0)%nat.
Proof.
  revert pre best bv. induction rest as [|c rest IH]; intros pre best bv B V M.
  - simpl. rewrite app_nil_r in *. split; [exact B|].
    intros j. destruct (Nat.lt_ge_cases j (List.length pre)) as [L|L].
    + rewrite V. apply M, L.
    + rewrite (nth_overflow pre 0%nat L). lia.
  - cbn [argmax_from].
    assert (A : pre ++ c :: rest = (pre ++ [c]) ++ rest)
      by (rewrite <- app_assoc; reflexivity).
    assert (Lp : List.length (pre ++ [c]) = S (List.length pre))
      by (rewrite length_app; simpl; lia).
    assert (Nc : nth (List.length pre) (pre ++ c :: rest) 0%nat = c)
      by (rewrite app_nth2 by lia; rewrite Nat.sub_diag; reflexivity).
    destruct (bv <? c)%nat eqn:G.
    + apply Nat.ltb_lt in G. rewrite A. rewrite <- Lp.
      apply IH.
      * rewrite Lp. lia.
      * rewrite <- A. exact Nc.
      * intros j J. rewrite Lp in J. rewrite <- A.
        destruct (Nat.eq_dec j (List.length pre)) as [->|N].
        -- rewrite Nc. lia.
        -- assert (j < List.length pre)%nat by lia. specialize (M j H). lia.
    + apply Nat.ltb_ge in G. rewrite A. rewrite <- Lp.
      apply IH.
      * rewrite Lp. lia.
      * rewrite <- A. exact V.
      * intros j J. rewrite Lp in J. rewrite <- A.
        destruct (Nat.eq_dec j (List.length pre)) as [->|N].
        -- rewrite Nc. lia.
        -- apply M. lia.
Qed.

Lemma np_argmax_max (counts : list nat) :
  counts <> [] ->
  (np_argmax counts < List.length counts)%nat /\
  forall j, (nth j counts 0 <= nth (np_argmax counts) counts 0)%nat.
Proof.
  destruct counts as [|c rest]; [congruence|]. intros _.
  apply (argmax_from_max [c] rest 0 c).
  - simpl. lia.
  - reflexivity.
  - intros j J. simpl in J. replace j with 0%nat by lia. simpl. lia.
Qed.

(** X24.  The majority vote.  When the sequence is at least as long as
    the window, its windows are not none and the pipeline predicts a
    label for each, [classify_exercise] returns one of those labels,
    and no label was predicted for more windows than the one it
    returns. *)
Theorem majority_label_wins {A} (predict_window : list A -> string + string)
    (data : list A) (window_size step : Z) (windows : list (list A))
    (preds : list string) :
  (window_size <= len data)%Z ->
  windows_from_sequence data window_size step = Some windows ->
  windows <> [] ->
  predict_all predict_window windows = inl preds ->
  exists label,
    classify_exercise predict_window data window_size step = inl label /\
    In label preds /\
    forall other,
      (count_occ string_dec preds other <= count_occ string_dec preds label)%nat.
Proof.
  intros L W N P. unfold classify_exercise.
  destruct (len data <? window_size)%Z eqn:E; [apply Z.ltb_lt in E; lia|].
  rewrite W. destruct windows as [|win rest]; [congruence|]. rewrite P.
  assert (NP : preds <> []).
  { simpl in P. destruct (predict_window win); [|discriminate].
    destruct (predict_all predict_window rest); [|discriminate].
    inversion P. discriminate. }
  set (unique := np_unique preds).
  set (counts := unique_counts preds unique).
  assert (NU : counts <> []).
  { destruct preds as [|p preds]; [congruence|].
    assert (I : In p unique) by (apply np_unique_In; left; reflexivity).
    unfold counts, unique_counts. destruct unique; [destruct I|discriminate]. }
  destruct (np_argmax_max counts NU) as (R & M).
  assert (Lc : List.length counts = List.length unique)
    by (unfold counts, unique_counts; apply length_map).
  assert (Cn : forall j, (j < List.length unique)%nat ->
                         nth j counts 0%nat
                         = count_occ string_dec preds (nth j unique ""%string)).
  { intros j J. unfold counts, unique_counts.
    rewrite (nth_indep _ 0%nat (count_occ string_dec preds ""%string))
      by (rewrite length_map; exact J).
    apply map_nth. }
  assert (R' : (np_argmax counts < List.length unique)%nat) by lia.
  exists (nth (np_argmax counts) unique ""%string).
  split; [reflexivity|]. split.
  - apply np_unique_In. apply nth_In. exact R'.
  - intros other. rewrite <- Cn by exact R'.
    destruct (in_dec string_dec other preds) as [I|I].
    + apply np_unique_In in I.
      destruct (In_nth _ _ ""%string I) as (j & J & <-).
      rewrite <- Cn by exact J. apply M.
    + apply (count_occ_not_In string_dec) in I. rewrite I. lia.
Qed.

Lemma majority_label_wins_witness :
  exists label,
    classify_exercise toy_predict
      [(0, 0, 1); (0, 0, 2); (0, 0, -1); (0, 0, 3); (0, 0, 4)] 2 1 = inl label /\
    In label ["bicep_curl"; "bicep_curl"; "shoulder_press"; "bicep_curl"]%string /\
    forall other,
      (count_occ string_dec
         ["bicep_curl"; "bicep_curl"; "shoulder_press"; "bicep_curl"]%string other
       <= count_occ string_dec
            ["bicep_curl"; "bicep_curl"; "shoulder_press"; "bicep_curl"]%string
            label)%nat.
Proof.
  apply (majority_label_wins toy_predict
           [(0, 0, 1); (0, 0, 2); (0, 0, -1); (0, 0, 3); (0, 0, 4)] 2 1
           [[(0, 0, 1); (0, 0, 2)]; [(0, 0, 2); (0, 0, -1)];
            [(0, 0, -1); (0, 0, 3)]; [(0, 0, 3); (0, 0, 4)]]).
  - vm_compute. discriminate.
  - reflexivity.
  - discriminate.
  - reflexivity.
Defined.

End ClassifierFacts.
